(** * Incremental PDF ingestion: a model of [loader.py]

    The loader walks a folder, skips files whose SHA-1 digest is already
    recorded in [./cache/file_hashes.json], and for every other PDF extracts
    the text, splits it into chunks, embeds each chunk (through a per-chunk
    JSON cache) and adds the records to a Chroma collection in batches of
    [BATCH_SIZE].

    The embedding below follows the source function by function.  The
    collaborators that live outside the repository (hashlib, the two PDF
    engines, the text splitter, the sentence embedder, the Chroma
    [collection.add] call, and the file system's answer to opening a file
    for writing) are the fields of type classes; everything else is
    executable. *)

From stdpp Require Import base gmap strings list numbers.
From Stdlib Require Import Strings.Ascii Strings.Byte QArith.
Close Scope Q_scope.

(** ** Python text on Latin-1 code points *)

Module Text.

(** [str.isspace] restricted to the code points below 256; [re]'s [\s]
    on [str] patterns agrees with it. *)
Definition isspace (c : ascii) : bool :=
  let n := nat_of_ascii c in
  ((9 <=? n) && (n <=? 13)) || ((28 <=? n) && (n <=? 32))
  || (n =? 133) || (n =? 160).

Fixpoint lstrip (s : string) : string :=
  match s with
  | String c s' => if isspace c then lstrip s' else s
  | EmptyString => EmptyString
  end.

Definition rstrip (s : string) : string := String.rev (lstrip (String.rev s)).

Definition strip (s : string) : string := rstrip (lstrip s).

(** [str.lower] on one code point. *)
Definition lower_char (c : ascii) : ascii :=
  let n := nat_of_ascii c in
  if ((65 <=? n) && (n <=? 90))
     || ((192 <=? n) && (n <=? 222) && negb (n =? 215))
  then ascii_of_nat (n + 32) else c.

Fixpoint lower (s : string) : string :=
  match s with
  | String c s' => String (lower_char c) (lower s')
  | EmptyString => EmptyString
  end.

Definition endswith (s suffix : string) : bool :=
  String.prefix (String.rev suffix) (String.rev s).

(** [text.replace("\xa0", " ")] *)
Fixpoint replace_nbsp (s : string) : string :=
  match s with
  | String c s' =>
      String (if nat_of_ascii c =? 160 then " "%char else c) (replace_nbsp s')
  | EmptyString => EmptyString
  end.

(** [re.sub(r"\s+", " ", text)]: [in_run] tells that the previous
    character was white space and has already produced its blank. *)
Fixpoint sub_spaces (in_run : bool) (s : string) : string :=
  match s with
  | String c s' =>
      if isspace c
      then (if in_run then sub_spaces true s'
            else String " "%char (sub_spaces true s'))
      else String c (sub_spaces false s')
  | EmptyString => EmptyString
  end.

(** ["\n".join(parts)] *)
Fixpoint join_lines (parts : list string) : string :=
  match parts with
  | [] => EmptyString
  | [p] => p
  | p :: rest => p +:+ String "010"%char (join_lines rest)
  end.

(** [text.encode("utf-8")] for code points below 256. *)
Definition utf8_char (c : ascii) : list byte :=
  let n := nat_of_ascii c in
  if n <? 128 then [byte_of_ascii c]
  else [byte_of_ascii (ascii_of_nat (192 + n / 64));
        byte_of_ascii (ascii_of_nat (128 + n mod 64))].

Fixpoint utf8 (s : string) : list byte :=
  match s with
  | String c s' => utf8_char c ++ utf8 s'
  | EmptyString => []
  end.

End Text.

(** ** JSON values as [json.load] returns them

    Numbers are carried as rationals: the loader never computes with the
    components of an embedding, it only asks whether a value is falsy. *)

#[warnings="-register-all"] Inductive json :=
| JNull
| JBool (b : bool)
| JNum (q : Q)
| JStr (s : string)
| JList (l : list json)
| JDict (d : gmap string json).

(** Python truth value of a parsed JSON value ([bool(v)]). *)
Definition truthy (v : json) : bool :=
  match v with
  | JNull => false
  | JBool b => b
  | JNum q => negb (Qnum q =? 0)%Z
  | JStr s => negb (String.eqb s EmptyString)
  | JList l => match l with [] => false | _ :: _ => true end
  | JDict d => negb (bool_decide (dom d = ∅))
  end.

(** A file on disk that the loader parses as JSON: either its bytes do not
    parse (or cannot be read), or they parse to a value.  A file that does
    not exist is [None] of [option file_content]. *)
Inductive file_content :=
| Garbled
| Json (v : json).

(** ** Records, exceptions, collaborators *)

(** One element of [to_add]:
    [{"id": uid, "text": chunk, "emb": emb, "meta": {"source": file}}]. *)
Record ChunkRecord := mkRecord {
  rec_id : string;
  rec_text : string;
  rec_emb : json;
  rec_source : string }.

Inductive exn := Exception (msg : string).

Inductive outcome (A : Type) :=
| Done (a : A)
| Raised (e : exn).
Arguments Done {A} a.
Arguments Raised {A} e.

(** A directory as the loader sees it: [os.listdir] and the bytes of each
    entry ([None] when [open(path, "rb")] fails, as for a sub-directory). *)
Record Folder := mkFolder {
  listdir : list string;
  read_bytes : string → option (list byte) }.

(** [hashlib.sha1(b).hexdigest()] *)
Class Digest := { sha1_hexdigest : list byte → string }.

(** The two extraction engines of [extract_text]; each returns the texts of
    the elements (resp. pages) it found, [None] for an element without text. *)
Class PdfEngines := {
  USE_UNSTRUCTURED : bool;
  partition_pdf : list byte → outcome (list (option string));
  pdfplumber_pages : list byte → outcome (list (option string)) }.

(** [RecursiveCharacterTextSplitter(...).split_text] *)
Class TextSplitter := { split_text : string → outcome (list string) }.

(** [embedder.encode(chunk).tolist()] *)
Class Embedder := { embedder_encode : string → outcome (list Q) }.

(** [collection.add] of the vector store: from the records held and a batch,
    either the new contents or [None] when the call raises.  A call that
    raises leaves the collection as it was: the store writes a batch as a
    whole or not at all. *)
Class VectorStore := {
  store_add : list ChunkRecord → list ChunkRecord → option (list ChunkRecord) }.

(** [open(fp, "w")] in [save_hash_index] and [save_cache]: [Some e] when the
    file cannot be opened for writing (no permission, a directory of that
    name, a missing cache directory); the call then raises [e] and nothing
    is written.  Which files can be opened does not change while the loader
    runs. *)
Class Disk := {
  open_index_error : option exn;
  open_cache_error : string → option exn }.

(** ** Settings *)

Definition COLLECTION_NAME : string := "laws".
Definition BATCH_SIZE : nat := 16.

(** ** State, trace and the loader monad *)

(** The persisted state (hash index file, cache directory, Chroma client)
    and the three mutable locals of the running [_process_pdfs] frame.
    The cache directory is keyed by chunk id: the entry for [uid] is the file
    [./cache/<uid>.json].  The index file [./cache/file_hashes.json] is kept
    apart from it: a 40-digit hexdigest never spells [file_hashes]. *)
Record Mem := mkMem {
  hash_index_file : option file_content;
  cache_dir : gmap string file_content;
  chroma : gmap string (list ChunkRecord);
  file_hashes : json;
  total_added : nat;
  to_add : list ChunkRecord }.

(** Calls that reach outside the interpreter, in program order. *)
Inductive event :=
| NoPdfFound
| HashFile (file : string)
| Skipped (file : string)
| ExtractText (file : string)
| EmptyText (file : string)
| CacheRead (uid : string)
| Encode (uid chunk : string)
| CacheWrite (uid : string) (emb : json)
| CollectionAdd (name : string) (batch : list ChunkRecord) (ok : bool)
| SaveHashIndex (index : json)
| FileDone (file : string) (chunks : nat)
| FileError (file : string) (e : exn)
| TotalAdded (n : nat)
| CreateCollection (name : string)
| DeleteCollection (name : string).

Definition M (A : Type) : Type := Mem → outcome A * Mem * list event.

Definition ret {A} (a : A) : M A := λ s, (Done a, s, []).

Definition bind {A B} (m : M A) (f : A → M B) : M B :=
  λ s, match m s with
       | (Done a, s1, t1) =>
           match f a s1 with (r, s2, t2) => (r, s2, t1 ++ t2) end
       | (Raised e, s1, t1) => (Raised e, s1, t1)
       end.

Definition raise {A} (e : exn) : M A := λ s, (Raised e, s, []).

Definition emit (ev : event) : M unit := λ s, (Done tt, s, [ev]).

Definition gets {A} (f : Mem → A) : M A := λ s, (Done (f s), s, []).

Definition modify (f : Mem → Mem) : M unit := λ s, (Done tt, f s, []).

(** [try: body except Exception as e: handler(e)] *)
Definition try_except {A} (body : M A) (handler : exn → M A) : M A :=
  λ s, match body s with
       | (Done a, s1, t1) => (Done a, s1, t1)
       | (Raised e, s1, t1) =>
           match handler e s1 with (r, s2, t2) => (r, s2, t1 ++ t2) end
       end.

Definition lift {A} (r : outcome A) : M A :=
  match r with Done a => ret a | Raised e => raise e end.

Notation "x <- m ;; k" := (bind m (λ x, k))
  (at level 100, m at next level, right associativity).
Notation "m >> k" := (bind m (λ _, k))
  (at level 100, right associativity).

(** [for x in xs: body(x)] *)
Fixpoint for_each {A} (body : A → M unit) (xs : list A) : M unit :=
  match xs with
  | [] => ret tt
  | x :: rest => body x >> for_each body rest
  end.

Definition set_hash_index_file (v : option file_content) (s : Mem) : Mem :=
  mkMem v (cache_dir s) (chroma s) (file_hashes s) (total_added s) (to_add s).
Definition set_cache_dir (v : gmap string file_content) (s : Mem) : Mem :=
  mkMem (hash_index_file s) v (chroma s) (file_hashes s) (total_added s) (to_add s).
Definition set_chroma (v : gmap string (list ChunkRecord)) (s : Mem) : Mem :=
  mkMem (hash_index_file s) (cache_dir s) v (file_hashes s) (total_added s) (to_add s).
Definition set_file_hashes (v : json) (s : Mem) : Mem :=
  mkMem (hash_index_file s) (cache_dir s) (chroma s) v (total_added s) (to_add s).
Definition set_total_added (v : nat) (s : Mem) : Mem :=
  mkMem (hash_index_file s) (cache_dir s) (chroma s) (file_hashes s) v (to_add s).
Definition set_to_add (v : list ChunkRecord) (s : Mem) : Mem :=
  mkMem (hash_index_file s) (cache_dir s) (chroma s) (file_hashes s) (total_added s) v.

(** ** The loader *)

Section Loader.
Context {digest : Digest} {engines : PdfEngines} {splitter : TextSplitter}
        {embedder : Embedder} {store : VectorStore} {disk : Disk}.

(** *** Utility functions *)

Definition clean_text (text : string) : string :=
  Text.strip (Text.sub_spaces false (Text.replace_nbsp text)).

Definition hash_id (text : string) : string :=
  sha1_hexdigest (Text.utf8 text).

(** [hash_file(path)] with [path = os.path.join(folder, file)]. *)
Definition hash_file (folder : Folder) (file : string) : M string :=
  emit (HashFile file) >>
  match read_bytes folder file with
  | Some b => ret (sha1_hexdigest b)
  | None => raise (Exception "OSError")
  end.

(** [json.load(f)] on an opened file. *)
Definition json_load (c : file_content) : M json :=
  match c with
  | Json v => ret v
  | Garbled => raise (Exception "JSONDecodeError")
  end.

(** [load_cache(fp)] with [fp = ./cache/<uid>.json]; Python's [None] is
    [None] here, and a file holding [null] gives [Some JNull]. *)
Definition load_cache (uid : string) : M (option json) :=
  emit (CacheRead uid) >>
  cache <- gets cache_dir ;;
  match cache !! uid with
  | Some c => try_except (v <- json_load c ;; ret (Some v)) (λ _, ret None)
  | None => ret None
  end.

Definition save_cache (uid : string) (data : json) : M unit :=
  match open_cache_error uid with
  | Some e => raise e
  | None =>
      cache <- gets cache_dir ;;
      modify (set_cache_dir (<[uid := Json data]> cache)) >>
      emit (CacheWrite uid data)
  end.

(** [[x for x in texts if x]] *)
Definition nonempty_texts (texts : list (option string)) : list string :=
  omap (λ t, match t with
             | Some s => if String.eqb s EmptyString then None else Some s
             | None => None
             end) texts.

Definition extract_text (folder : Folder) (file : string) : M string :=
  emit (ExtractText file) >>
  match read_bytes folder file with
  | None => raise (Exception "OSError")
  | Some b =>
      first <- (if USE_UNSTRUCTURED then
                  elements <- lift (partition_pdf b) ;;
                  let text := Text.join_lines (nonempty_texts elements) in
                  ret (if String.eqb (Text.strip text) EmptyString then None
                       else Some text)
                else ret None) ;;
      match first with
      | Some text => ret text
      | None =>
          pages <- lift (pdfplumber_pages b) ;;
          ret (Text.join_lines (nonempty_texts pages))
      end
  end.

Definition split_text_semantically (text : string) : M (list string) :=
  lift (split_text text).

(** *** File hash management *)

Definition load_hash_index : M json :=
  f <- gets hash_index_file ;;
  match f with
  | Some c => try_except (json_load c) (λ _, ret (JDict ∅))
  | None => ret (JDict ∅)
  end.

Definition save_hash_index (index : json) : M unit :=
  match open_index_error with
  | Some e => raise e
  | None =>
      modify (set_hash_index_file (Some (Json index))) >>
      emit (SaveHashIndex index)
  end.

(** [d.get(k)]: only a dict has the method. *)
Definition dict_get (d : json) (k : string) : M (option json) :=
  match d with
  | JDict m => ret (m !! k)
  | _ => raise (Exception "AttributeError")
  end.

(** [d[k] = v] on the dict that [file_hashes] names. *)
Definition file_hashes_setitem (k : string) (v : json) : M unit :=
  d <- gets file_hashes ;;
  match d with
  | JDict m => modify (set_file_hashes (JDict (<[k := v]> m)))
  | _ => raise (Exception "TypeError")
  end.

(** [value == file_hash] for a value read from the index. *)
Definition equals_str (value : option json) (s : string) : bool :=
  match value with
  | Some (JStr s') => String.eqb s' s
  | _ => false
  end.

(** *** The Chroma collection behind a handle *)

Definition collection_count (name : string) : M nat :=
  c <- gets chroma ;;
  match c !! name with
  | Some recs => ret (length recs)
  | None => raise (Exception "NotFoundError")
  end.

(** [collection.get(include=[])["ids"]] *)
Definition collection_get_ids (name : string) : M (list string) :=
  c <- gets chroma ;;
  match c !! name with
  | Some recs => ret (rec_id <$> recs)
  | None => raise (Exception "NotFoundError")
  end.

Definition collection_add (name : string) (batch : list ChunkRecord) : M unit :=
  c <- gets chroma ;;
  match c !! name with
  | Some recs =>
      match store_add recs batch with
      | Some recs' =>
          modify (set_chroma (<[name := recs']> c)) >>
          emit (CollectionAdd name batch true)
      | None =>
          emit (CollectionAdd name batch false) >>
          raise (Exception "add failed")
      end
  | None =>
      emit (CollectionAdd name batch false) >>
      raise (Exception "NotFoundError")
  end.

Definition create_collection (name : string) : M unit :=
  c <- gets chroma ;;
  match c !! name with
  | Some _ => raise (Exception "UniqueConstraintError")
  | None => modify (set_chroma (<[name := []]> c)) >>
            emit (CreateCollection name)
  end.

Definition delete_collection (name : string) : M unit :=
  c <- gets chroma ;;
  match c !! name with
  | Some _ => modify (set_chroma (delete name c)) >>
              emit (DeleteCollection name)
  | None => raise (Exception "NotFoundError")
  end.

(** *** Main processing *)

Definition _add_batch (collection : string) (batch : list ChunkRecord) : M unit :=
  try_except (collection_add collection batch) (λ _, ret tt).

(** [not emb] for what [load_cache] returned. *)
Definition py_not (emb : option json) : bool :=
  match emb with
  | Some v => negb (truthy v)
  | None => true
  end.

(** The embedding of a chunk, from the cache or from the model:
    [emb = load_cache(cache_fp)], [if not emb: ...]. *)
Definition embedding_for (uid chunk : string) : M json :=
  cached <- load_cache uid ;;
  if py_not cached then
    emit (Encode uid chunk) >>
    v <- lift (embedder_encode chunk) ;;
    let emb := JList (JNum <$> v) in
    save_cache uid emb >>
    ret emb
  else ret (default JNull cached).

(** [to_add.append(record)] and the flush at [BATCH_SIZE]. *)
Definition buffer_record (collection : string) (record : ChunkRecord) : M unit :=
  buf <- gets to_add ;;
  modify (set_to_add (buf ++ [record])) >>
  buf <- gets to_add ;;
  if BATCH_SIZE <=? length buf then
    _add_batch collection buf >>
    n <- gets total_added ;;
    modify (set_total_added (n + length buf)) >>
    modify (set_to_add [])
  else ret tt.

(** Body of [for chunk in chunks]. *)
Definition process_chunk (collection : string) (existing_ids : gset string)
    (file chunk : string) : M unit :=
  let uid := hash_id (chunk +:+ file) in
  if bool_decide (uid ∈ existing_ids) then ret tt
  else
    emb <- embedding_for uid chunk ;;
    buffer_record collection (mkRecord uid chunk emb file).

(** The chunk loop of one file with its final drain:
    [to_add = []], [for chunk in chunks: ...], [if to_add: ...]. *)
Definition add_chunks (collection : string) (existing_ids : gset string)
    (file : string) (chunks : list string) : M unit :=
  modify (set_to_add []) >>
  for_each (process_chunk collection existing_ids file) chunks >>
  buf <- gets to_add ;;
  match buf with
  | [] => ret tt
  | _ :: _ =>
      _add_batch collection buf >>
      n <- gets total_added ;;
      modify (set_total_added (n + length buf))
  end.

(** The lines under [# Save hash after success]. *)
Definition commit_file (file file_hash : string) (chunks : list string) : M unit :=
  file_hashes_setitem file (JStr file_hash) >>
  index <- gets file_hashes ;;
  save_hash_index index >>
  emit (FileDone file (length chunks)).

(** Body of the [try] block of one file. *)
Definition file_body (collection : string) (existing_ids : gset string)
    (folder : Folder) (file file_hash : string) : M unit :=
  text <- extract_text folder file ;;
  if String.eqb (Text.strip text) EmptyString then emit (EmptyText file)
  else
    chunks <- split_text_semantically (clean_text text) ;;
    add_chunks collection existing_ids file chunks >>
    commit_file file file_hash chunks.

(** Body of [for file in files]. *)
Definition process_file (collection : string) (existing_ids : gset string)
    (folder : Folder) (file : string) : M unit :=
  file_hash <- hash_file folder file ;;
  index <- gets file_hashes ;;
  recorded <- dict_get index file ;;
  if equals_str recorded file_hash then emit (Skipped file)
  else
    try_except (file_body collection existing_ids folder file file_hash)
               (λ e, emit (FileError file e)).

Definition is_pdf (f : string) : bool := Text.endswith (Text.lower f) ".pdf".

Definition _process_pdfs (collection : string) (folder : Folder) : M unit :=
  let files := List.filter is_pdf (listdir folder) in
  match files with
  | [] => emit NoPdfFound
  | _ :: _ =>
      index <- load_hash_index ;;
      modify (set_file_hashes index) >>
      n <- collection_count collection ;;
      existing_ids <- (match n with
                       | O => ret ∅
                       | S _ => ids <- collection_get_ids collection ;;
                                ret (list_to_set ids)
                       end) ;;
      modify (set_total_added 0) >>
      for_each (process_file collection existing_ids folder) files >>
      total <- gets total_added ;;
      emit (TotalAdded total)
  end.

(** *** Public API *)

Definition load_pdfs (folder : Folder) : M string :=
  c <- gets chroma ;;
  (if bool_decide (COLLECTION_NAME ∈ dom c) then ret tt
   else create_collection COLLECTION_NAME) >>
  _process_pdfs COLLECTION_NAME folder >>
  ret COLLECTION_NAME.

Definition reload_pdfs (folder : Folder) : M string :=
  c <- gets chroma ;;
  (if bool_decide (COLLECTION_NAME ∈ dom c)
   then delete_collection COLLECTION_NAME else ret tt) >>
  create_collection COLLECTION_NAME >>
  _process_pdfs COLLECTION_NAME folder >>
  ret COLLECTION_NAME.

End Loader.

(** ** Reading a run *)

Definition result_of {A} (r : outcome A * Mem * list event) : outcome A := r.1.1.
Definition state_of {A} (r : outcome A * Mem * list event) : Mem := r.1.2.
Definition trace_of {A} (r : outcome A * Mem * list event) : list event := r.2.

(** The batches handed to [collection.add], in order. *)
Definition batches (t : list event) : list (list ChunkRecord) :=
  omap (λ ev, match ev with CollectionAdd _ b _ => Some b | _ => None end) t.

(** The records handed to [collection.add], in order. *)
Definition submitted (t : list event) : list ChunkRecord := concat (batches t).

(** The part of the state that survives the process. *)
Definition persisted (s : Mem) :
    option file_content * gmap string file_content * gmap string (list ChunkRecord) :=
  (hash_index_file s, cache_dir s, chroma s).

(** [m] keeps [I] and only emits events in [E], from every state in [I]
    and whether it returns or raises. *)
Definition respects {A} (I : Mem → Prop) (E : event → Prop) (m : M A) : Prop :=
  ∀ s, I s → I (state_of (m s)) ∧ Forall E (trace_of (m s)).

(** What the chunk id of a record must be: the SHA-1 hexdigest of the
    UTF-8 bytes of the chunk text followed by the file name. *)
Definition id_is_digest `{Digest} (r : ChunkRecord) : Prop :=
  rec_id r = sha1_hexdigest (Text.utf8 (rec_text r +:+ rec_source r)).

(** Every id an event works with is derived from a chunk text and the name
    of a file in [P]: a submitted record carries the id of its own text and
    source, and its source is in [P]; an id sent to the embedder is the
    digest of the chunk it comes with followed by a file name in [P]. *)
Definition ids_derived `{Digest} (P : string → Prop) (ev : event) : Prop :=
  match ev with
  | CollectionAdd _ batch _ =>
      Forall (λ r, id_is_digest r ∧ P (rec_source r)) batch
  | Encode uid chunk =>
      ∃ file, P file ∧ uid = sha1_hexdigest (Text.utf8 (chunk +:+ file))
  | _ => True
  end.

(** The ids an event touches: in the cache, at the embedder or in a batch. *)
Definition event_ids (ev : event) : list string :=
  match ev with
  | CacheRead uid => [uid]
  | Encode uid _ => [uid]
  | CacheWrite uid _ => [uid]
  | CollectionAdd _ batch _ => rec_id <$> batch
  | _ => []
  end.

Definition avoids (ids : gset string) (ev : event) : Prop :=
  Forall (λ id, id ∉ ids) (event_ids ev).

(** The ids held by the collection behind [collection]. *)
Definition snapshot (s : Mem) (collection : string) : gset string :=
  match chroma s !! collection with
  | Some recs => list_to_set (rec_id <$> recs)
  | None => ∅
  end.

(** The ids of the collection behind [collection] are pairwise distinct. *)
Definition distinct_ids (s : Mem) (collection : string) : Prop :=
  ∀ recs, chroma s !! collection = Some recs → NoDup (rec_id <$> recs).

(** A store whose [add] keeps every id it holds, as Chroma's does. *)
Definition store_keeps_ids `{VectorStore} : Prop :=
  ∀ recs batch recs',
    store_add recs batch = Some recs' →
    ∀ id, id ∈ (rec_id <$> recs) → id ∈ (rec_id <$> recs').

(** A store whose [add] never makes an id occur twice, as Chroma's does. *)
Definition store_keeps_ids_distinct `{VectorStore} : Prop :=
  ∀ recs batch recs',
    NoDup (rec_id <$> recs) →
    store_add recs batch = Some recs' →
    NoDup (rec_id <$> recs').

(** What [load_hash_index] makes of the index file. *)
Definition index_of (f : option file_content) : json :=
  match f with
  | Some (Json v) => v
  | Some Garbled => JDict ∅
  | None => JDict ∅
  end.

(** The entry of [file] in an index value. *)
Definition index_entry (index : json) (file : string) : option json :=
  match index with
  | JDict m => m !! file
  | _ => None
  end.

(** The index in memory is the one on disk. *)
Definition synced (s : Mem) : Prop :=
  index_of (hash_index_file s) = file_hashes s.

(** The index in memory records the current digest of [file]. *)
Definition recorded `{Digest} (folder : Folder) (file : string) (s : Mem) : Prop :=
  ∃ b, read_bytes folder file = Some b
       ∧ index_entry (file_hashes s) file = Some (JStr (sha1_hexdigest b)).

(** A file that did not reach its commit: it raised or had no text. *)
Definition file_failed (ev : event) : bool :=
  match ev with
  | FileError _ _ => true
  | EmptyText _ => true
  | _ => false
  end.

Definition no_failure (ev : event) : Prop := file_failed ev = false.

(** The events of the chunk loop: cache, embedder and store calls. *)
Definition chunk_event (ev : event) : Prop :=
  match ev with
  | CacheRead _ | Encode _ _ | CacheWrite _ _ | CollectionAdd _ _ _ => True
  | _ => False
  end.

(** An event other than a write of the index file. *)
Definition not_a_commit (ev : event) : Prop :=
  match ev with
  | SaveHashIndex _ => False
  | _ => True
  end.

(** The trace of a run in which every file is skipped as unchanged. *)
Definition all_skipped (files : list string) : list event :=
  match files with
  | [] => [NoPdfFound]
  | _ :: _ => concat ((λ f, [HashFile f; Skipped f]) <$> files) ++ [TotalAdded 0]
  end.

(** The files an event is about. *)
Definition event_files (ev : event) : list string :=
  match ev with
  | HashFile f => [f]
  | Skipped f => [f]
  | ExtractText f => [f]
  | EmptyText f => [f]
  | CollectionAdd _ batch _ => rec_source <$> batch
  | FileDone f _ => [f]
  | FileError f _ => [f]
  | _ => []
  end.

Definition only_files (P : string → Prop) (ev : event) : Prop :=
  Forall P (event_files ev).

(** ** A small world to run the loader in

    The digest of a byte string is the string itself (injective, as SHA-1 is
    taken to be); a PDF has one page whose text is its bytes; the splitter
    cuts at white space; the embedder fails on the chunk [boom]; the store
    behaves as Chroma's [add] does: it raises on a batch that repeats an id
    and silently ignores records whose id it already holds; every file can
    be opened for writing. *)
Module Scenario.

#[export] Instance plain_digest : Digest :=
  {| sha1_hexdigest b := String.string_of_list_byte b |}.

#[export] Instance page_engine : PdfEngines := {|
  USE_UNSTRUCTURED := false;
  partition_pdf _ := Raised (Exception "not installed");
  pdfplumber_pages b := Done [Some (String.string_of_list_byte b)] |}.

#[export] Instance word_splitter : TextSplitter :=
  {| split_text t := Done (String.words t) |}.

#[export] Instance toy_embedder : Embedder := {|
  embedder_encode c :=
    if String.eqb c "boom" then Raised (Exception "encode failed")
    else Done [inject_Z (Z.of_nat (String.length c))] |}.

#[export] Instance chroma_store : VectorStore := {|
  store_add recs batch :=
    if bool_decide (NoDup (rec_id <$> batch))
    then Some (recs ++ List.filter
                 (λ r, negb (bool_decide (rec_id r ∈ (rec_id <$> recs)))) batch)
    else None |}.

#[export] Instance writable_disk : Disk :=
  {| open_index_error := None; open_cache_error _ := None |}.

(** Nothing on disk, no collection, locals not yet assigned. *)
Definition fresh : Mem := mkMem None ∅ ∅ JNull 0 [].

(** A folder holding [name] with the given bytes, and [notes.txt]. *)
Definition one_file (name text : string) : Folder :=
  mkFolder [name; "notes.txt"]
    (λ f, if String.eqb f name then Some (String.list_byte_of_string text)
          else if String.eqb f "notes.txt" then Some [] else None).

(** A PDF whose text splits into two equal chunks. *)
Definition twice : Folder := one_file "a.pdf" "x x".

(** A PDF with seventeen chunks, the last equal to the first. *)
Definition seventeen : Folder :=
  one_file "a.pdf" "c1 c2 c3 c4 c5 c6 c7 c8 c9 c10 c11 c12 c13 c14 c15 c16 c1".

Definition two_chunks : Folder := one_file "a.pdf" "x y".

(** [a.pdf] has a chunk the embedder fails on, [b.pdf] has not. *)
Definition two_files : Folder :=
  mkFolder ["a.pdf"; "b.pdf"; "notes.txt"]
    (λ f, if String.eqb f "a.pdf"
          then Some (String.list_byte_of_string "x boom y")
          else if String.eqb f "b.pdf"
          then Some (String.list_byte_of_string "z")
          else if String.eqb f "notes.txt" then Some [] else None).

(** [a.pdf] alone, with the bytes it has in [two_chunks]. *)
Definition pdf_alone : Folder :=
  mkFolder ["a.pdf"]
    (λ f, if String.eqb f "a.pdf"
          then Some (String.list_byte_of_string "x y") else None).

(** A folder without any PDF. *)
Definition no_pdf : Folder :=
  mkFolder ["notes.txt"; "scan.pdf.bak"] (λ _, Some []).

(** The seventeen chunks of the PDF in [seventeen]. *)
Definition seventeen_chunks : list string :=
  ["c1"; "c2"; "c3"; "c4"; "c5"; "c6"; "c7"; "c8"; "c9"; "c10"; "c11";
   "c12"; "c13"; "c14"; "c15"; "c16"; "c1"].

(** The state at the head of the file loop of a first run. *)
Definition ready : Mem := mkMem None ∅ {[ "laws" := [] ]} (JDict ∅) 0 [].

(** The state a first [load_pdfs two_chunks] leaves behind. *)
Definition loaded : Mem := state_of (load_pdfs two_chunks fresh).

End Scenario.


(** ** Shapes of texts, for the properties of [clean_text] and [is_pdf] *)

(** The characters of a text that are not white space, in order. *)
Fixpoint non_space (s : string) : string :=
  match s with
  | String c s' => if Text.isspace c then non_space s' else String c (non_space s')
  | EmptyString => EmptyString
  end.

(** The text starts with a character that is not white space. *)
Definition word_first (s : string) : bool :=
  match s with
  | String c _ => negb (Text.isspace c)
  | EmptyString => false
  end.

(** The text starts with a white-space character. *)
Definition space_first (s : string) : bool :=
  match s with
  | String c _ => Text.isspace c
  | EmptyString => false
  end.

(** Every white-space character of the text is a blank that is not followed
    by white space. *)
Fixpoint tidy (s : string) : bool :=
  match s with
  | String c s' =>
      (if Text.isspace c then Ascii.eqb c " " && negb (space_first s') else true)
      && tidy s'
  | EmptyString => true
  end.

(** Every white-space character of the text is a blank that is followed by
    a character that is not white space. *)
Fixpoint spaced (s : string) : bool :=
  match s with
  | String c s' =>
      (if Text.isspace c then Ascii.eqb c " " && word_first s' else true)
      && spaced s'
  | EmptyString => true
  end.

(** Words separated by single blanks, no white space at either end. *)
Definition normalised (s : string) : bool :=
  match s with
  | String _ _ => word_first s && spaced s
  | EmptyString => true
  end.

(** ** Counting *)

(** [m] raises the counter [total_added] by the number of records it hands
    to [collection.add], whether it returns or raises. *)
Definition counts {A} (m : M A) : Prop :=
  ∀ s, total_added (state_of (m s))
       = total_added s + length (submitted (trace_of (m s))).

(** ** What reaches the store *)

(** What a collection holds after the batches [bs] were handed to
    [collection.add] one after the other, starting from the records [recs]:
    a batch on which the call raises changes nothing. *)
Fixpoint store_after `{VectorStore} (recs : list ChunkRecord)
    (bs : list (list ChunkRecord)) : list ChunkRecord :=
  match bs with
  | [] => recs
  | b :: rest => store_after (default recs (store_add recs b)) rest
  end.

(** [m] changes the collection behind [collection] by its calls to
    [collection.add] and in no other way, whether it returns or raises. *)
Definition stores `{VectorStore} {A} (collection : string) (m : M A) : Prop :=
  ∀ s recs,
    chroma s !! collection = Some recs →
    chroma (state_of (m s))
    = <[collection := store_after recs (batches (trace_of (m s)))]> (chroma s).

(** The batches of the chunk loop of one file and the buffer it leaves:
    full batches of [BATCH_SIZE] records, then either nothing, with the
    buffer empty, or one shorter batch from the drain, which is still in
    the buffer. *)
Definition flushed_and_drained (bs : list (list ChunkRecord))
    (buffer : list ChunkRecord) : Prop :=
  ∃ full last,
    bs = full ++ last
    ∧ Forall (λ b, length b = 16) full
    ∧ ((last = [] ∧ buffer = [])
       ∨ (last = [buffer] ∧ 0 < length buffer < 16)).

(** ** Where the [try] block of a file can raise, and runs that follow runs *)

Section Failures.
Context {digest : Digest} {engines : PdfEngines} {splitter : TextSplitter}
        {embedder : Embedder} {store : VectorStore} {disk : Disk}.

(** The [try] block of [file], entered in state [s], raises [e] before it
    reaches the lines under [# Save hash after success]: in
    [extract_text], in [split_text_semantically] or in the chunk loop with
    its drain.  The last two arguments are the state and the trace of the
    block at the raise. *)
Inductive fails_before_commit (collection : string) (existing : gset string)
    (folder : Folder) (file : string) (s : Mem) (e : exn) :
    Mem → list event → Prop :=
| fails_in_extraction s1 t1 :
    extract_text folder file s = (Raised e, s1, t1) →
    fails_before_commit collection existing folder file s e s1 t1
| fails_in_splitting text s1 t1 s2 t2 :
    extract_text folder file s = (Done text, s1, t1) →
    String.eqb (Text.strip text) EmptyString = false →
    split_text_semantically (clean_text text) s1 = (Raised e, s2, t2) →
    fails_before_commit collection existing folder file s e s2 (t1 ++ t2)
| fails_in_chunk_loop text s1 t1 chunks s2 t2 s3 t3 :
    extract_text folder file s = (Done text, s1, t1) →
    String.eqb (Text.strip text) EmptyString = false →
    split_text_semantically (clean_text text) s1 = (Done chunks, s2, t2) →
    add_chunks collection existing file chunks s2 = (Raised e, s3, t3) →
    fails_before_commit collection existing folder file s e s3
      (t1 ++ t2 ++ t3).

(** One more run on the collection behind [collection]: a run of
    [_process_pdfs], or of [load_pdfs] when the collection is the one
    [load_pdfs] works on.  The run may return or raise. *)
Inductive next_run (collection : string) (s : Mem) : Mem → Prop :=
| run_of_process_pdfs folder :
    next_run collection s (state_of (_process_pdfs collection folder s))
| run_of_load_pdfs folder :
    collection = COLLECTION_NAME →
    next_run collection s (state_of (load_pdfs folder s)).

End Failures.

(** ** More cases to run *)

Module Cases.

(** [b.pdf] cannot be read (a directory of that name, say). *)
Definition broken : Folder :=
mkFolder ["a.pdf"; "b.pdf"; "c.pdf"]
  (λ f, if String.eqb f "a.pdf" then Some (String.list_byte_of_string "x")
        else if String.eqb f "c.pdf" then Some (String.list_byte_of_string "z")
        else None).

(** A PDF whose only page is white space. *)
Definition blank : Folder := Scenario.one_file "a.pdf" "   ".

(** An index file that parses, but to a list. *)
Definition list_index : Mem :=
mkMem (Some (Json (JList []))) ∅ {[ "laws" := [] ]} JNull 0 [].

(** A client that holds a second collection besides [laws]. *)
Definition two_collections : Mem :=
mkMem None ∅
  {[ "laws" := []; "notes" := [mkRecord "n1" "note" (JList []) "n.pdf"] ]}
  JNull 0 [].

(** Unstructured is installed and raises on every file; pdfplumber would
  read the file. *)
Definition failing_engine : PdfEngines := {|
USE_UNSTRUCTURED := true;
partition_pdf _ := Raised (Exception "partition failed");
pdfplumber_pages b := Done [Some (String.string_of_list_byte b)] |}.

(** A splitter that refuses a text that is empty or was not cleaned. *)
Definition strict_splitter : TextSplitter := {|
split_text t :=
  if normalised t && negb (String.eqb t EmptyString)
  then Done (String.words t) else Raised (Exception "raw text") |}.

(** The cache file of the chunk [x] of [a.pdf] holds a string. *)
Definition junk_cache : Mem :=
mkMem None {[ "xa.pdf" := Json (JStr "junk") ]} {[ "laws" := [] ]} (JDict ∅) 0 [].

(** The index file cannot be opened for writing. *)
Definition read_only_index : Disk := {|
open_index_error := Some (Exception "PermissionError");
open_cache_error _ := None |}.

(** No cache file can be opened for writing. *)
Definition read_only_cache : Disk := {|
open_index_error := None;
open_cache_error _ := Some (Exception "PermissionError") |}.

End Cases.

(** ** Reasoning about runs

    Run equations for [bind] and [try_except], their inversions, and the
    rules that carry a state invariant and a trace property through the
    constructs the loader is written with. *)

Lemma batches_app t1 t2 : batches (t1 ++ t2) = batches t1 ++ batches t2.
Proof. unfold batches. apply omap_app. Qed.

Lemma submitted_app t1 t2 : submitted (t1 ++ t2) = submitted t1 ++ submitted t2.
Proof. unfold submitted. by rewrite batches_app, concat_app. Qed.

Lemma bind_run {A B} (m : M A) (f : A → M B) s :
  bind m f s =
    match m s with
    | (Done a, s1, t1) =>
        (result_of (f a s1), state_of (f a s1), t1 ++ trace_of (f a s1))
    | (Raised e, s1, t1) => (Raised e, s1, t1)
    end.
Proof.
  unfold bind, result_of, state_of, trace_of.
  destruct (m s) as [[[a|e] s1] t1]; [|done].
  by destruct (f a s1) as [[r s2] t2].
Qed.

Lemma try_except_run {A} (m : M A) (h : exn → M A) s :
  try_except m h s =
    match m s with
    | (Done a, s1, t1) => (Done a, s1, t1)
    | (Raised e, s1, t1) =>
        (result_of (h e s1), state_of (h e s1), t1 ++ trace_of (h e s1))
    end.
Proof.
  unfold try_except, result_of, state_of, trace_of.
  destruct (m s) as [[[a|e] s1] t1]; [done|].
  by destruct (h e s1) as [[r s2] t2].
Qed.

Lemma respects_ret {A} I E (a : A) : respects I E (ret a).
Proof. intros s HI. by split; [|constructor]. Qed.

Lemma respects_raise {A} I E e : respects I E (@raise A e).
Proof. intros s HI. by split; [|constructor]. Qed.

Lemma respects_lift {A} I E (r : outcome A) : respects I E (lift r).
Proof. destruct r; [apply respects_ret | apply respects_raise]. Qed.

Lemma respects_gets {A} I E (f : Mem → A) : respects I E (gets f).
Proof. intros s HI. by split; [|constructor]. Qed.

Lemma respects_emit (I : Mem → Prop) (E : event → Prop) ev :
  E ev → respects I E (emit ev).
Proof. intros HE s HI. split; [done|]. by repeat constructor. Qed.

Lemma respects_modify (I : Mem → Prop) (E : event → Prop) f :
  (∀ s, I s → I (f s)) → respects I E (modify f).
Proof. intros Hf s HI. split; [by apply Hf | constructor]. Qed.

Lemma respects_bind {A B} I E (m : M A) (f : A → M B) :
  respects I E m → (∀ a, respects I E (f a)) → respects I E (bind m f).
Proof.
  intros Hm Hf s HI. rewrite bind_run.
  destruct (Hm s HI) as [H1 H2]. unfold state_of, trace_of in H1, H2.
  destruct (m s) as [[[a|e] s1] t1]; simpl in *; [|done].
  destruct (Hf a s1 H1) as [H3 H4]. split; [done|].
  by apply Forall_app.
Qed.

(** A [gets] whose value the continuation depends on: the value read comes
    from a state in [I]. *)
Lemma respects_bind_gets {A B} (I : Mem → Prop) E (g : Mem → A) (f : A → M B) :
  (∀ a, (∃ s0, I s0 ∧ a = g s0) → respects I E (f a)) →
  respects I E (bind (gets g) f).
Proof.
  intros Hf s HI. rewrite bind_run. simpl.
  apply (Hf (g s)); [by exists s | done].
Qed.

Lemma respects_try {A} I E (m : M A) (h : exn → M A) :
  respects I E m → (∀ e, respects I E (h e)) → respects I E (try_except m h).
Proof.
  intros Hm Hh s HI. rewrite try_except_run.
  destruct (Hm s HI) as [H1 H2]. unfold state_of, trace_of in H1, H2.
  destruct (m s) as [[[a|e] s1] t1]; simpl in *; [done|].
  destruct (Hh e s1 H1) as [H3 H4]. split; [done|].
  by apply Forall_app.
Qed.

Lemma respects_for_each {A} I E (body : A → M unit) (xs : list A) :
  (∀ x, x ∈ xs → respects I E (body x)) → respects I E (for_each body xs).
Proof.
  induction xs as [|x xs IH]; intros Hb; simpl.
  - apply respects_ret.
  - apply respects_bind.
    + apply Hb. left.
    + intros _. apply IH. intros y Hy. apply Hb. by right.
Qed.

(** A block that starts by assigning a local: the assignment establishes
    the stronger invariant [I] that the rest of the block keeps. *)
Lemma respects_establish {A} (I J : Mem → Prop) E (f : Mem → Mem) (m : M A) :
  (∀ s, J s → I (f s)) → (∀ s, I s → J s) → respects I E m →
  respects J E (bind (modify f) (λ _, m)).
Proof.
  intros Hf HIJ Hm s HJ. rewrite bind_run. simpl.
  destruct (Hm (f s) (Hf s HJ)) as [H1 H2]. split; [by apply HIJ | done].
Qed.

Lemma respects_weaken {A} (I : Mem → Prop) (E E' : event → Prop) (m : M A) :
  (∀ ev, E ev → E' ev) → respects I E m → respects I E' m.
Proof.
  intros HE Hm s HI. destruct (Hm s HI) as [H1 H2]. split; [done|].
  eapply Forall_impl; eauto.
Qed.

Lemma bind_done_inv {A B} (m : M A) (f : A → M B) s b s' t :
  bind m f s = (Done b, s', t) →
  ∃ a s1 t1 t2, m s = (Done a, s1, t1) ∧ f a s1 = (Done b, s', t2) ∧ t = t1 ++ t2.
Proof.
  unfold bind. destruct (m s) as [[[a|e] s1] t1]; [|done].
  destruct (f a s1) as [[r s2] t2] eqn:Hf. intros [= -> -> <-].
  by exists a, s1, t1, t2.
Qed.

Lemma bind_raised_inv {A B} (m : M A) (f : A → M B) s e s' t :
  bind m f s = (Raised e, s', t) →
  m s = (Raised e, s', t)
  ∨ ∃ a s1 t1 t2, m s = (Done a, s1, t1) ∧ f a s1 = (Raised e, s', t2)
                  ∧ t = t1 ++ t2.
Proof.
  unfold bind. destruct (m s) as [[[a|e1] s1] t1]; [|intros [= -> -> ->]; by left].
  destruct (f a s1) as [[r s2] t2] eqn:Hf. intros [= -> -> <-].
  right. by exists a, s1, t1, t2.
Qed.

Lemma for_each_ext {A} (body1 body2 : A → M unit) (xs : list A) :
  (∀ x, x ∈ xs → body1 x = body2 x) → for_each body1 xs = for_each body2 xs.
Proof.
  induction xs as [|x xs IH]; intros Hb; simpl; [done|].
  rewrite (Hb x) by left. rewrite IH; [done|].
  intros y Hy. apply Hb. by right.
Qed.

(** ** Properties of the loader *)

Section Properties.
Context {digest : Digest} {engines : PdfEngines} {splitter : TextSplitter}
        {embedder : Embedder} {store : VectorStore} {disk : Disk}.

#[local] Arguments for_each : simpl never.

(** One step of an invariant proof, read off the shape of the program.
    It stops at the loops and at the reset of the buffer, where the
    invariant changes. *)
Ltac respects_step :=
  lazymatch goal with
  | |- respects _ _ (ret _) => apply respects_ret
  | |- respects _ _ (raise _) => apply respects_raise
  | |- respects _ _ (lift _) => apply respects_lift
  | |- respects _ _ (emit _) => apply respects_emit
  | |- respects _ _ (modify _) => apply respects_modify; intros ? ?
  | |- respects _ _ (bind (modify (set_to_add [])) _) => fail
  | |- respects _ _ (bind (gets _) _) =>
      apply respects_bind_gets; intros ? (? & ? & ->)
  | |- respects _ _ (bind _ _) => apply respects_bind; [|intros ?]
  | |- respects _ _ (try_except _ _) => apply respects_try; [|intros ?]
  | |- respects _ _ (match ?x with _ => _ end) => destruct x eqn:?
  end.

(** *** Chunk identity *)

Lemma process_chunk_ids collection existing file chunk :
  respects (λ s, Forall (λ r, id_is_digest r ∧ rec_source r = file) (to_add s))
           (ids_derived (λ f, f = file))
           (process_chunk collection existing file chunk).
Proof.
  unfold process_chunk, embedding_for, buffer_record, load_cache,
    save_cache, _add_batch, collection_add, json_load.
  repeat respects_step; simpl in *; try done.
  all: try (by exists file).
  all: try (apply Forall_app; split; [done|]; by repeat constructor).
Qed.

Lemma add_chunks_ids collection existing file chunks :
  respects (λ _, True) (ids_derived (λ f, f = file))
           (add_chunks collection existing file chunks).
Proof.
  unfold add_chunks.
  apply (respects_establish
           (λ s, Forall (λ r, id_is_digest r ∧ rec_source r = file) (to_add s)));
    [by constructor | done |].
  apply respects_bind;
    [apply respects_for_each; intros chunk _; apply process_chunk_ids|].
  intros _. unfold _add_batch, collection_add.
  repeat respects_step; simpl in *; try done.
Qed.

Lemma file_body_ids collection existing folder file file_hash :
  respects (λ _, True) (ids_derived (λ f, f = file))
           (file_body collection existing folder file file_hash).
Proof.
  unfold file_body, extract_text, split_text_semantically, commit_file,
    file_hashes_setitem, save_hash_index.
  repeat respects_step; simpl; try done.
  all: apply add_chunks_ids.
Qed.

Lemma process_file_ids collection existing folder file :
  respects (λ _, True) (ids_derived (λ f, f = file))
           (process_file collection existing folder file).
Proof.
  unfold process_file, hash_file, dict_get.
  repeat respects_step; simpl; try done.
  apply file_body_ids.
Qed.

Lemma ids_derived_weaken (P Q : string → Prop) ev :
  (∀ f, P f → Q f) → ids_derived P ev → ids_derived Q ev.
Proof.
  intros HPQ. destruct ev; simpl; try done.
  - intros (f & Hf & ->). exists f. auto.
  - intros Hb. eapply Forall_impl; [|exact Hb]. intros r [H1 H2]. auto.
Qed.

Lemma _process_pdfs_ids collection folder :
  respects (λ _, True)
           (ids_derived (λ f, f ∈ List.filter is_pdf (listdir folder)))
           (_process_pdfs collection folder).
Proof.
  unfold _process_pdfs, load_hash_index, json_load, collection_count,
    collection_get_ids.
  repeat respects_step; simpl; try done.
  all: apply respects_for_each; intros file Hfile.
  all: eapply respects_weaken; [|apply process_file_ids].
  all: intros ev; apply ids_derived_weaken; by intros f ->.
Qed.

Lemma ids_derived_submitted P t :
  Forall (ids_derived P) t →
  Forall (λ r, id_is_digest r ∧ P (rec_source r)) (submitted t).
Proof.
  induction 1 as [|ev t Hev _ IH]; [constructor|].
  change (ev :: t) with ([ev] ++ t). rewrite submitted_app.
  apply Forall_app. split; [|done].
  destruct ev; try constructor. unfold submitted. simpl.
  by rewrite app_nil_r.
Qed.
(** *** The run as a whole *)

(** [_process_pdfs] up to its file loop: the index is loaded, the ids of
    the collection are read once, the counter is reset. *)
Lemma _process_pdfs_run collection folder s :
  _process_pdfs collection folder s =
    match List.filter is_pdf (listdir folder) with
    | [] => (Done tt, s, [NoPdfFound])
    | files =>
        let s1 := set_file_hashes (index_of (hash_index_file s)) s in
        match chroma s !! collection with
        | None => (Raised (Exception "NotFoundError"), s1, [])
        | Some _ =>
            let r := for_each (process_file collection (snapshot s collection) folder)
                       files (set_total_added 0 s1) in
            match result_of r with
            | Done _ =>
                (Done tt, state_of r,
                 trace_of r ++ [TotalAdded (total_added (state_of r))])
            | Raised e => (Raised e, state_of r, trace_of r)
            end
        end
    end.
Proof.
  unfold _process_pdfs, snapshot.
  destruct (List.filter is_pdf (listdir folder)) as [|f files]; [done|].
  unfold load_hash_index, collection_count, collection_get_ids, json_load,
    bind, gets, modify, ret, raise, try_except, emit, result_of, state_of,
    trace_of, index_of.
  simpl.
  destruct (hash_index_file s) as [[|v]|] eqn:Hidx; simpl.
  all: destruct (chroma s !! collection) as [recs|] eqn:Hc; simpl; [|done].
  all: destruct recs as [|r recs]; simpl; rewrite ?Hc; simpl.
  all: match goal with
       | |- context [for_each ?b ?l ?s] =>
           destruct (for_each b l s) as [[[[]|e] s2] t2]; simpl
       end.
  all: by rewrite ?app_nil_r.
Qed.

(** *** Deduplication against the start-of-run snapshot *)

Lemma avoids_batch existing name batch ok :
  Forall (λ r, rec_id r ∉ existing) batch →
  avoids existing (CollectionAdd name batch ok).
Proof. intros Hb. unfold avoids. simpl. by apply Forall_fmap. Qed.

Lemma process_chunk_avoids collection existing file chunk :
  respects (λ s, Forall (λ r, rec_id r ∉ existing) (to_add s))
           (avoids existing)
           (process_chunk collection existing file chunk).
Proof.
  unfold process_chunk.
  destruct (bool_decide _) eqn:Hex; [apply respects_ret|].
  apply bool_decide_eq_false in Hex.
  unfold embedding_for, buffer_record, load_cache, save_cache, _add_batch,
    collection_add, json_load.
  repeat respects_step; try (by apply avoids_batch); simpl in *; try done.
  all: try (by repeat constructor).
  all: apply Forall_app; split; [done|]; by repeat constructor.
Qed.

Lemma add_chunks_avoids collection existing file chunks :
  respects (λ _, True) (avoids existing)
           (add_chunks collection existing file chunks).
Proof.
  unfold add_chunks.
  apply (respects_establish (λ s, Forall (λ r, rec_id r ∉ existing) (to_add s)));
    [by constructor | done |].
  apply respects_bind;
    [apply respects_for_each; intros chunk _; apply process_chunk_avoids|].
  intros _. unfold _add_batch, collection_add.
  repeat respects_step; try (by apply avoids_batch); simpl in *; try done.
  all: by repeat constructor.
Qed.

Lemma process_file_avoids collection existing folder file :
  respects (λ _, True) (avoids existing)
           (process_file collection existing folder file).
Proof.
  unfold process_file, hash_file, dict_get, file_body, extract_text,
    split_text_semantically, commit_file, file_hashes_setitem,
    save_hash_index.
  repeat respects_step; simpl; try done.
  all: try (by repeat constructor).
  all: apply add_chunks_avoids.
Qed.
(** *** Commits and skips *)

Lemma extract_text_state folder file s :
  state_of (extract_text folder file s) = s.
Proof.
  unfold extract_text, bind, emit, ret, raise, lift, state_of. simpl.
  destruct (read_bytes folder file) as [b|]; [|done].
  destruct USE_UNSTRUCTURED; simpl.
  - destruct (partition_pdf b) as [els|e]; simpl; [|done].
    destruct (String.eqb _ _); simpl; [|done].
    by destruct (pdfplumber_pages b).
  - by destruct (pdfplumber_pages b).
Qed.

Lemma extract_text_trace folder file s :
  trace_of (extract_text folder file s) = [ExtractText file].
Proof.
  unfold extract_text, bind, emit, ret, raise, lift, trace_of. simpl.
  destruct (read_bytes folder file) as [b|]; [|done].
  destruct USE_UNSTRUCTURED; simpl.
  - destruct (partition_pdf b) as [els|e]; simpl; [|done].
    destruct (String.eqb _ _); simpl; [|done].
    by destruct (pdfplumber_pages b).
  - by destruct (pdfplumber_pages b).
Qed.

(** The chunk loop and its drain leave the index alone, on disk and in
    memory, keep every collection that exists, and report no failed file. *)
Lemma add_chunks_frame collection existing file chunks (K : Mem → Prop) :
  (∀ s v, K s → K (set_cache_dir v s)) →
  (∀ s v, K s → K (set_to_add v s)) →
  (∀ s v, K s → K (set_total_added v s)) →
  (∀ s s0 recs', K s → K s0 →
                 K (set_chroma (<[collection := recs']> (chroma s0)) s)) →
  respects K chunk_event (add_chunks collection existing file chunks).
Proof.
  intros Kc Kt Kn Kadd. unfold add_chunks.
  apply respects_bind; [apply respects_modify; auto|]. intros _.
  apply respects_bind.
  { apply respects_for_each. intros chunk _.
    unfold process_chunk, embedding_for, buffer_record, load_cache,
      save_cache, _add_batch, collection_add, json_load.
    repeat respects_step; simpl in *; try done; subst; eauto. }
  intros _. unfold _add_batch, collection_add.
  repeat respects_step; simpl in *; try done; subst; eauto.
Qed.

Lemma add_chunks_index collection existing file chunks s :
  hash_index_file (state_of (add_chunks collection existing file chunks s))
    = hash_index_file s
  ∧ file_hashes (state_of (add_chunks collection existing file chunks s))
    = file_hashes s
  ∧ Forall chunk_event (trace_of (add_chunks collection existing file chunks s)).
Proof.
  destruct (add_chunks_frame collection existing file chunks
              (λ s', hash_index_file s' = hash_index_file s
                     ∧ file_hashes s' = file_hashes s)) with (s := s)
    as [[H1 H2] H3]; try done.
Qed.

Lemma file_body_done collection existing folder file h s s' t :
  file_body collection existing folder file h s = (Done tt, s', t) →
  Forall no_failure t →
  ∃ m, file_hashes s = JDict m
       ∧ file_hashes s' = JDict (<[file := JStr h]> m)
       ∧ hash_index_file s' = Some (Json (file_hashes s')).
Proof.
  unfold file_body. intros Hrun Hok.
  apply bind_done_inv in Hrun as (text & s1 & t1 & t2 & Hx & Hrest & ->).
  pose proof (extract_text_state folder file s) as Hs1.
  rewrite Hx in Hs1. unfold state_of in Hs1. simpl in Hs1. subst s1.
  apply Forall_app in Hok as [_ Hok].
  destruct (String.eqb (Text.strip text) EmptyString).
  { injection Hrest as <- <-. by inversion Hok. }
  apply bind_done_inv in Hrest as (chunks & s2 & t3 & t4 & Hsp & Hrest & ->).
  assert (s2 = s) as ->.
  { unfold split_text_semantically, lift in Hsp.
    destruct (split_text _); by injection Hsp. }
  apply bind_done_inv in Hrest as ([] & s3 & t5 & t6 & Hadd & Hcommit & ->).
  destruct (add_chunks_index collection existing file chunks s) as (Hi & Hf & _).
  rewrite Hadd in Hi, Hf. unfold state_of in Hi, Hf. simpl in Hi, Hf.
  revert Hcommit.
  unfold commit_file, file_hashes_setitem, save_hash_index, bind, gets,
    modify, emit, raise. simpl.
  rewrite Hf. destruct (file_hashes s) as [| | | | |m]; try done.
  simpl. destruct open_index_error; [done|].
  simpl. intros [= <- <-]. by exists m.
Qed.

(** One round of the file loop, case by case. *)
Lemma process_file_run collection existing folder file s :
  process_file collection existing folder file s =
    match read_bytes folder file with
    | None => (Raised (Exception "OSError"), s, [HashFile file])
    | Some b =>
        match file_hashes s with
        | JDict m =>
            if equals_str (m !! file) (sha1_hexdigest b)
            then (Done tt, s, [HashFile file; Skipped file])
            else
              let r := file_body collection existing folder file
                         (sha1_hexdigest b) s in
              match result_of r with
              | Done _ => (Done tt, state_of r, HashFile file :: trace_of r)
              | Raised e =>
                  (Done tt, state_of r,
                   HashFile file :: trace_of r ++ [FileError file e])
              end
        | _ => (Raised (Exception "AttributeError"), s, [HashFile file])
        end
    end.
Proof.
  unfold process_file, hash_file, dict_get, bind, emit, gets, ret, raise,
    try_except, result_of, state_of, trace_of.
  simpl.
  destruct (read_bytes folder file) as [b|]; simpl; [|done].
  destruct (file_hashes s) as [| | | | |m]; simpl; try done.
  destruct (equals_str _ _); simpl; [done|].
  by destruct (file_body _ _ _ _ _ s) as [[[[]|e] s1] t1].
Qed.

Lemma process_file_commits collection existing folder file s s' t :
  process_file collection existing folder file s = (Done tt, s', t) →
  Forall no_failure t → synced s →
  synced s' ∧ recorded folder file s'
  ∧ ∀ g, recorded folder g s → recorded folder g s'.
Proof.
  rewrite process_file_run.
  destruct (read_bytes folder file) as [b|] eqn:Hb; simpl; [|done].
  destruct (file_hashes s) as [| | | | |m] eqn:Hm; simpl; try done.
  destruct (equals_str (m !! file) (sha1_hexdigest b)) eqn:Heq; simpl.
  - intros [= <- <-] _ Hsync. split; [done|]. split; [|done].
    exists b. split; [done|]. rewrite Hm. simpl.
    unfold equals_str in Heq.
    destruct (m !! file) as [[]|]; try done.
    by apply String.eqb_eq in Heq as ->.
  - destruct (file_body _ _ _ _ _ s) as [[[[]|e] s1] t1] eqn:Hbody;
      unfold result_of, state_of, trace_of; simpl.
    + intros [= <- <-] Hok _. inversion Hok as [|? ? _ Hok']; subst.
      apply file_body_done in Hbody as (m' & Hm' & Hs1 & Hdisk); [|done].
      rewrite Hm in Hm'. injection Hm' as <-.
      split; [by unfold synced; rewrite Hdisk|]. split.
      * exists b. split; [done|]. rewrite Hs1. simpl.
        by rewrite lookup_insert_eq.
      * intros g (bg & Hbg & Hg). exists bg. split; [done|].
        rewrite Hs1. simpl. rewrite Hm in Hg. simpl in Hg.
        destruct (decide (file = g)) as [->|Hne].
        -- rewrite lookup_insert_eq. congruence.
        -- by rewrite lookup_insert_ne.
    + intros [= <- <-] Hok _. inversion Hok as [|? ? _ Hok']; subst.
      apply Forall_app in Hok' as [_ Hbad]. by inversion Hbad.
Qed.

Lemma for_each_process_file_commits collection existing folder files :
  ∀ s s' t,
    for_each (process_file collection existing folder) files s = (Done tt, s', t) →
    Forall no_failure t → synced s →
    synced s' ∧ (∀ g, g ∈ files → recorded folder g s')
    ∧ ∀ g, recorded folder g s → recorded folder g s'.
Proof.
  induction files as [|f files IH]; intros s s' t Hrun Hok Hsync.
  - injection Hrun as <- <-. split; [done|]. split; [|done].
    intros g Hg. by apply elem_of_nil in Hg.
  - change (for_each ?b (f :: files)) with (b f >> for_each b files) in Hrun.
    apply bind_done_inv in Hrun as ([] & s1 & t1 & t2 & Hf & Hrest & ->).
    apply Forall_app in Hok as [Hok1 Hok2].
    destruct (process_file_commits _ _ _ _ _ _ _ Hf Hok1 Hsync)
      as (Hsync1 & Hrec1 & Hkeep1).
    destruct (IH _ _ _ Hrest Hok2 Hsync1) as (Hsync2 & Hrec2 & Hkeep2).
    split; [done|]. split; [|by auto].
    intros g [->|Hg]%elem_of_cons; auto.
Qed.

Lemma process_file_skips collection existing folder file s :
  recorded folder file s →
  process_file collection existing folder file s
    = (Done tt, s, [HashFile file; Skipped file]).
Proof.
  intros (b & Hb & Hrec). rewrite process_file_run, Hb.
  destruct (file_hashes s) as [| | | | |m]; try done. simpl in *.
  rewrite Hrec. simpl. by rewrite String.eqb_refl.
Qed.

Lemma for_each_process_file_skips collection existing folder files s :
  (∀ g, g ∈ files → recorded folder g s) →
  for_each (process_file collection existing folder) files s
    = (Done tt, s, concat ((λ f, [HashFile f; Skipped f]) <$> files)).
Proof.
  induction files as [|f files IH]; intros Hrec; [done|].
  change (for_each ?b (f :: files)) with (b f >> for_each b files).
  unfold bind. rewrite process_file_skips by (apply Hrec; left).
  rewrite IH; [done|]. intros g Hg. apply Hrec. by right.
Qed.

(** The file loop never removes a collection. *)
Lemma process_file_keeps_collections collection existing folder file name :
  respects (λ s, is_Some (chroma s !! name)) (λ _, True)
           (process_file collection existing folder file).
Proof.
  unfold process_file, hash_file, dict_get, file_body, extract_text,
    split_text_semantically, commit_file, file_hashes_setitem,
    save_hash_index.
  repeat respects_step; simpl; try done.
  all: eapply respects_weaken; [|apply add_chunks_frame]; try done.
  all: simpl; intros s s0 recs' Hs Hs0.
  all: destruct (decide (collection = name)) as [->|Hne];
    [by rewrite lookup_insert_eq | by rewrite lookup_insert_ne].
Qed.

Lemma load_pdfs_run folder s :
  load_pdfs folder s =
    let s0 := match chroma s !! COLLECTION_NAME with
              | Some _ => s
              | None => set_chroma (<[COLLECTION_NAME := []]> (chroma s)) s
              end in
    let pre := match chroma s !! COLLECTION_NAME with
               | Some _ => []
               | None => [CreateCollection COLLECTION_NAME]
               end in
    let r := _process_pdfs COLLECTION_NAME folder s0 in
    (match result_of r with
     | Done _ => Done COLLECTION_NAME
     | Raised e => Raised e
     end, state_of r, pre ++ trace_of r).
Proof.
  unfold load_pdfs, create_collection, bind, gets, modify, emit, ret, raise,
    result_of, state_of, trace_of.
  simpl.
  destruct (chroma s !! COLLECTION_NAME) as [recs|] eqn:Hc.
  - rewrite bool_decide_eq_true_2 by (apply elem_of_dom; by rewrite Hc).
    destruct (_process_pdfs _ _ s) as [[[[]|e] s1] t1]; simpl;
      by rewrite ?app_nil_r.
  - rewrite bool_decide_eq_false_2
      by (rewrite elem_of_dom, Hc; by intros [? ?]).
    rewrite Hc.
    destruct (_process_pdfs _ _ _) as [[[[]|e] s1] t1]; simpl;
      by rewrite ?app_nil_r.
Qed.

Lemma all_skipped_submits_nothing files : submitted (all_skipped files) = [].
Proof.
  assert (∀ l, submitted (concat ((λ f, [HashFile f; Skipped f]) <$> l)) = [])
    as Hl by (intros l; by induction l).
  destruct files as [|f files]; [done|]. unfold all_skipped.
  by rewrite submitted_app, Hl.
Qed.

(** C4.  Let a [load_pdfs] over a folder return with no file reported as
    failed or as empty, so that every PDF was committed or skipped.  A
    second [load_pdfs] over the same folder then skips every PDF on its
    digest: its trace is one hash and one skip per file followed by a
    total of 0, no record is handed to the collection, and the index file,
    the cache and the collections are what the first run left. *)
Theorem second_load_adds_nothing folder s0 s1 t1 :
  load_pdfs folder s0 = (Done COLLECTION_NAME, s1, t1) →
  Forall no_failure t1 →
  ∃ s2,
    load_pdfs folder s1
      = (Done COLLECTION_NAME, s2, all_skipped (List.filter is_pdf (listdir folder)))
    ∧ submitted (all_skipped (List.filter is_pdf (listdir folder))) = []
    ∧ persisted s2 = persisted s1.
Proof.
  intros Hrun Hok. rewrite load_pdfs_run in Hrun.
  set (sa := match chroma s0 !! COLLECTION_NAME with
             | Some _ => s0
             | None => set_chroma (<[COLLECTION_NAME := []]> (chroma s0)) s0
             end) in *.
  assert (is_Some (chroma sa !! COLLECTION_NAME)) as Hsa.
  { unfold sa. destruct (chroma s0 !! COLLECTION_NAME) eqn:Hc; [by rewrite Hc|].
    simpl. by rewrite lookup_insert_eq. }
  cbv zeta in Hrun. injection Hrun as Hres Hs1 Ht1.
  rewrite <- Ht1 in Hok. apply Forall_app in Hok as [_ Hok]. clear Ht1.
  rewrite _process_pdfs_run in Hres, Hs1, Hok.
  destruct (List.filter is_pdf (listdir folder)) as [|f files] eqn:Hfiles.
  { unfold state_of in Hs1. simpl in Hs1. subst s1.
    destruct Hsa as [recs Hrecs]. exists sa.
    rewrite load_pdfs_run. cbv zeta. rewrite Hrecs, _process_pdfs_run, Hfiles.
    done. }
  cbv zeta in Hres, Hs1, Hok.
  destruct Hsa as [recs Hrecs]. rewrite Hrecs in Hres, Hs1, Hok.
  match type of Hres with
  | context [for_each ?b ?l ?st] =>
      pose proof (respects_for_each (λ s', is_Some (chroma s' !! COLLECTION_NAME))
                    (λ _, True) b l
                    (λ x _, process_file_keeps_collections _ _ _ x _) st)
        as Hdom;
      destruct (for_each b l st) as [[[[]|e] sb] tb] eqn:Hloop
  end; unfold result_of, state_of, trace_of in *; simpl in *; [|done].
  subst s1. apply Forall_app in Hok as [Hok _].
  destruct Hdom as [[recs1 Hrecs1] _]; [by rewrite Hrecs|].
  apply for_each_process_file_commits in Hloop as (Hsync & Hrec & _);
    [|done|done].
  rewrite load_pdfs_run. cbv zeta.
  rewrite Hrecs1, _process_pdfs_run, Hfiles. cbv zeta. rewrite Hrecs1.
  rewrite for_each_process_file_skips.
  2:{ intros g Hg. destruct (Hrec g Hg) as (b & Hb & Hg'). exists b.
      split; [done|]. simpl. unfold synced in Hsync. by rewrite Hsync. }
  unfold result_of, state_of, trace_of. simpl. eexists. split; [reflexivity|].
  split; [apply (all_skipped_submits_nothing (f :: files))|].
  done.
Qed.

(** *** A file that fails *)

(** A raise before the commit is a raise of the [try] block, and leaves
    the index as it was, on disk and in memory. *)
Lemma fails_before_commit_raises collection existing folder file h s e s1 t1 :
  fails_before_commit collection existing folder file s e s1 t1 →
  file_body collection existing folder file h s = (Raised e, s1, t1)
  ∧ hash_index_file s1 = hash_index_file s
  ∧ file_hashes s1 = file_hashes s
  ∧ Forall not_a_commit t1.
Proof.
  pose proof (extract_text_state folder file s) as Hxs.
  pose proof (extract_text_trace folder file s) as Hxt.
  assert (∀ t, Forall chunk_event t → Forall not_a_commit t) as Hweak.
  { intros t Ht. eapply Forall_impl; [|exact Ht]. by intros []. }
  intros [s1' t1' Hx | text s1' t1' s2 t2 Hx Htext Hsp
          | text s1' t1' chunks s2 t2 s3 t3 Hx Htext Hsp Hadd];
    rewrite Hx in Hxs, Hxt; unfold state_of, trace_of in Hxs, Hxt;
    simpl in Hxs, Hxt; subst; unfold file_body.
  - rewrite bind_run, Hx. by repeat constructor.
  - rewrite bind_run, Hx, Htext, bind_run, Hsp.
    unfold split_text_semantically, lift in Hsp.
    destruct (split_text _); [done|]. injection Hsp as <- <- <-.
    by repeat constructor.
  - rewrite bind_run, Hx, Htext, bind_run, Hsp.
    assert (s2 = s ∧ t2 = []) as [-> ->].
    { unfold split_text_semantically, lift in Hsp.
      destruct (split_text _); [|done]. by injection Hsp as <- <- <-. }
    rewrite bind_run, Hadd.
    destruct (add_chunks_index collection existing file chunks s)
      as (Hi & Hf & Hev).
    rewrite Hadd in Hi, Hf, Hev. unfold state_of, trace_of in *.
    simpl in *. repeat (split; [done|]).
    constructor; [done|]. by apply Hweak.
Qed.

(** When the [try] block of a file raises, the index file is as it was
    and was not written on the way.  The block raised before its commit,
    or in [file_hashes[file] = file_hash] on an index that is not a dict,
    or in the write of the index file: the digest of the file is then
    recorded in memory only. *)
Lemma file_body_raised collection existing folder file h s e s1 t1 :
  file_body collection existing folder file h s = (Raised e, s1, t1) →
  hash_index_file s1 = hash_index_file s
  ∧ Forall not_a_commit t1
  ∧ (fails_before_commit collection existing folder file s e s1 t1
     ∨ (file_hashes s1 = file_hashes s ∧ ∀ m, file_hashes s ≠ JDict m)
     ∨ ∃ m, file_hashes s = JDict m
            ∧ file_hashes s1 = JDict (<[file := JStr h]> m)
            ∧ open_index_error = Some e).
Proof.
  unfold file_body. intros Hrun.
  pose proof (extract_text_state folder file s) as Hxs.
  pose proof (extract_text_trace folder file s) as Hxt.
  apply bind_raised_inv in Hrun
    as [Hx|(text & s2 & t2 & t3 & Hx & Hrest & ->)].
  { destruct (fails_before_commit_raises collection existing folder file h
                s e s1 t1) as (_ & Hi & _ & Ht); [by constructor|].
    split; [done|]. split; [done|]. left. by constructor. }
  destruct (String.eqb (Text.strip text) EmptyString) eqn:Htext; [done|].
  apply bind_raised_inv in Hrest
    as [Hsp|(chunks & s3 & t4 & t5 & Hsp & Hrest & ->)].
  { destruct (fails_before_commit_raises collection existing folder file h
                s e s1 (t2 ++ t3)) as (_ & Hi & _ & Ht);
      [by econstructor 2|].
    split; [done|]. split; [done|]. left. by econstructor 2. }
  apply bind_raised_inv in Hrest
    as [Hadd|([] & s4 & t6 & t7 & Hadd & Hcommit & ->)].
  { destruct (fails_before_commit_raises collection existing folder file h
                s e s1 (t2 ++ t4 ++ t5)) as (_ & Hi & _ & Ht);
      [by econstructor 3|].
    split; [done|]. split; [done|]. left. by econstructor 3. }
  rewrite Hx in Hxs, Hxt. unfold state_of, trace_of in Hxs, Hxt.
  simpl in Hxs, Hxt. subst.
  assert (s3 = s ∧ t4 = []) as [-> ->].
  { unfold split_text_semantically, lift in Hsp.
    destruct (split_text _); [|done]. by injection Hsp as <- <- <-. }
  destruct (add_chunks_index collection existing file chunks s)
    as (Hi & Hf & Hev).
  rewrite Hadd in Hi, Hf, Hev. unfold state_of, trace_of in Hi, Hf, Hev.
  simpl in Hi, Hf, Hev.
  assert (Forall not_a_commit t6) as Hweak.
  { eapply Forall_impl; [|exact Hev]. by intros []. }
  revert Hcommit.
  unfold commit_file, file_hashes_setitem, save_hash_index, bind, gets,
    modify, emit, raise. simpl.
  destruct (file_hashes s4) as [| | | | |m] eqn:Hfh.
  1-5: intros [= <- <- <-]; rewrite app_nil_r; split; [done|];
    (split; [by constructor|]); right; left;
    (split; [congruence|]); intros m; congruence.
  simpl. destruct open_index_error as [e'|] eqn:Hopen; [|done].
  simpl. intros [= <- <- <-]. rewrite app_nil_r.
  split; [done|]. split; [by constructor|]. right. right.
  exists m. by rewrite <- Hf.
Qed.

Lemma file_body_starts_with_extraction collection existing folder file h s :
  ∃ rest, trace_of (file_body collection existing folder file h s)
          = ExtractText file :: rest.
Proof.
  unfold file_body. rewrite bind_run.
  pose proof (extract_text_trace folder file s) as Hx.
  destruct (extract_text folder file s) as [[[text|e] s1] t1];
    unfold trace_of in *; simpl in *; subst; by eexists.
Qed.

(** X13.  The index file is written at most once per file, and then as
    the last action on storage: every store, cache and embedder call of
    the file comes before it. *)
Lemma commit_is_the_last_write collection existing folder file h s :
  Forall not_a_commit (trace_of (file_body collection existing folder file h s))
  ∨ ∃ t0 index n,
      trace_of (file_body collection existing folder file h s)
      = t0 ++ [SaveHashIndex index; FileDone file n]
      ∧ Forall not_a_commit t0.
Proof.
  destruct (file_body collection existing folder file h s)
    as [[[[]|e] s1] t1] eqn:Hrun; unfold trace_of; simpl.
  2:{ left. by apply file_body_raised in Hrun as (_ & Ht & _). }
  revert Hrun. unfold file_body. intros Hrun.
  pose proof (extract_text_state folder file s) as Hxs.
  pose proof (extract_text_trace folder file s) as Hxt.
  apply bind_done_inv in Hrun as (text & s2 & t2 & t3 & Hx & Hrest & ->).
  rewrite Hx in Hxs, Hxt. unfold state_of, trace_of in Hxs, Hxt.
  simpl in Hxs, Hxt. subst.
  destruct (String.eqb (Text.strip text) EmptyString).
  { injection Hrest as <- <-. left. by repeat constructor. }
  apply bind_done_inv in Hrest as (chunks & s3 & t4 & t5 & Hsp & Hrest & ->).
  assert (s3 = s ∧ t4 = []) as [-> ->].
  { unfold split_text_semantically, lift in Hsp.
    destruct (split_text _); [|done]. by injection Hsp as <- <- <-. }
  apply bind_done_inv in Hrest as ([] & s4 & t6 & t7 & Hadd & Hcommit & ->).
  destruct (add_chunks_index collection existing file chunks s)
    as (_ & _ & Hev).
  rewrite Hadd in Hev. unfold trace_of in Hev. simpl in Hev.
  revert Hcommit.
  unfold commit_file, file_hashes_setitem, save_hash_index, bind, gets,
    modify, emit, raise. simpl.
  destruct (file_hashes s4) as [| | | | |m]; try done.
  simpl. destruct open_index_error; [done|]. simpl.
  intros [= <- <-]. right.
  exists (ExtractText file :: t6), (JDict (<[file := JStr h]> m)), (length chunks).
  split; [done|]. constructor; [done|].
  eapply Forall_impl; [|exact Hev]. by intros [].
Qed.

(** C5.  Take a file that reaches its [try] block (it can be read, the
    index is a dict and does not record its digest) and let the block
    raise during extraction, during splitting or in the chunk loop.  Then
    the block as a whole raises that error, the round of the file loop
    returns normally after reporting it, the index file and the index in
    memory are what they were before the file and were not written, and
    the loop goes on with the remaining files from that state.  A later
    run that loads the index left on disk does not skip the file: it
    extracts it again. *)
Theorem failed_file_is_isolated collection existing folder file rest s b m e s1 t1 :
  read_bytes folder file = Some b →
  file_hashes s = JDict m →
  equals_str (m !! file) (sha1_hexdigest b) = false →
  fails_before_commit collection existing folder file s e s1 t1 →
  file_body collection existing folder file (sha1_hexdigest b) s
    = (Raised e, s1, t1)
  ∧ process_file collection existing folder file s
    = (Done tt, s1, HashFile file :: t1 ++ [FileError file e])
  ∧ hash_index_file s1 = hash_index_file s
  ∧ file_hashes s1 = file_hashes s
  ∧ Forall not_a_commit t1
  ∧ for_each (process_file collection existing folder) (file :: rest) s
    = (result_of (for_each (process_file collection existing folder) rest s1),
       state_of (for_each (process_file collection existing folder) rest s1),
       (HashFile file :: t1 ++ [FileError file e])
       ++ trace_of (for_each (process_file collection existing folder) rest s1))
  ∧ (synced s →
     ∀ existing' later,
       file_hashes later = index_of (hash_index_file s1) →
       ∃ rest', trace_of (process_file collection existing' folder file later)
                = HashFile file :: ExtractText file :: rest').
Proof.
  intros Hb Hm Hne Hfail.
  destruct (fails_before_commit_raises collection existing folder file
              (sha1_hexdigest b) s e s1 t1 Hfail) as (Hbody & Hi & Hf & Hev).
  assert (process_file collection existing folder file s
          = (Done tt, s1, HashFile file :: t1 ++ [FileError file e])) as Hpf.
  { rewrite process_file_run, Hb, Hm, Hne. cbv zeta. by rewrite Hbody. }
  repeat (split; [done|]). split.
  { change (for_each ?body (file :: rest))
      with (body file >> for_each body rest).
    by rewrite bind_run, Hpf. }
  intros Hsync existing' later Hlater.
  rewrite process_file_run, Hb, Hlater, Hi, Hsync, Hm, Hne. cbv zeta.
  destruct (file_body_starts_with_extraction collection existing' folder
              file (sha1_hexdigest b) later) as [rest' Hrest].
  destruct (file_body _ _ _ _ _ later) as [[[[]|e'] s2] t2];
    unfold result_of, trace_of in *; simpl in *; subst; by eexists.
Qed.
(** *** The embedding of a chunk *)

Lemma load_cache_total uid s :
  load_cache uid s
    = (Done match cache_dir s !! uid with
            | Some (Json v) => Some v
            | _ => None
            end, s, [CacheRead uid]).
Proof.
  unfold load_cache, json_load, try_except, bind, gets, emit, ret, raise.
  simpl. by destruct (cache_dir s !! uid) as [[|v]|].
Qed.

(** The embedding of a chunk, case by case. *)
Lemma embedding_for_run uid chunk s :
  embedding_for uid chunk s =
    let compute :=
      match embedder_encode chunk with
      | Done vec =>
          match open_cache_error uid with
          | None =>
              (Done (JList (JNum <$> vec)),
               set_cache_dir
                 (<[uid := Json (JList (JNum <$> vec))]> (cache_dir s)) s,
               [CacheRead uid; Encode uid chunk;
                CacheWrite uid (JList (JNum <$> vec))])
          | Some e => (Raised e, s, [CacheRead uid; Encode uid chunk])
          end
      | Raised e => (Raised e, s, [CacheRead uid; Encode uid chunk])
      end in
    match cache_dir s !! uid with
    | Some (Json w) => if truthy w then (Done w, s, [CacheRead uid]) else compute
    | _ => compute
    end.
Proof.
  unfold embedding_for. rewrite bind_run, load_cache_total.
  unfold result_of, state_of, trace_of, save_cache, bind, gets, modify,
    emit, ret, lift, raise.
  simpl. destruct (cache_dir s !! uid) as [[|w]|]; simpl.
  2: destruct (truthy w); simpl; [done|].
  all: destruct (embedder_encode chunk); [|done].
  all: by destruct (open_cache_error uid).
Qed.

(** Looking up or computing an embedding touches neither the buffer nor
    the store. *)
Lemma embedding_for_frame uid chunk s :
  to_add (state_of (embedding_for uid chunk s)) = to_add s
  ∧ batches (trace_of (embedding_for uid chunk s)) = [].
Proof.
  rewrite embedding_for_run. cbv zeta.
  destruct (cache_dir s !! uid) as [[|w]|].
  2: destruct (truthy w); [done|].
  all: destruct (embedder_encode chunk); [|done].
  all: by destruct (open_cache_error uid).
Qed.

(** *** Batching *)

(** [_add_batch] makes one call to the store and returns, whatever the
    store answers: the collection holds what the store made of the batch,
    or what it held when the call raised. *)
Lemma _add_batch_run collection batch s :
  _add_batch collection batch s =
    match chroma s !! collection with
    | Some recs =>
        match store_add recs batch with
        | Some recs' =>
            (Done tt, set_chroma (<[collection := recs']> (chroma s)) s,
             [CollectionAdd collection batch true])
        | None => (Done tt, s, [CollectionAdd collection batch false])
        end
    | None => (Done tt, s, [CollectionAdd collection batch false])
    end.
Proof.
  unfold _add_batch, collection_add, try_except, bind, gets, modify, emit,
    ret, raise.
  simpl. destruct (chroma s !! collection) as [recs|]; [|done].
  by destruct (store_add recs batch).
Qed.

Lemma _add_batch_returns collection batch s :
  ∃ c' (ok : bool), _add_batch collection batch s
           = (Done tt, if ok then set_chroma c' s else s,
              [CollectionAdd collection batch ok]).
Proof.
  rewrite _add_batch_run. destruct (chroma s !! collection) as [recs|].
  - destruct (store_add recs batch) as [recs'|].
    + by eexists _, true.
    + by exists (chroma s), false.
  - by exists (chroma s), false.
Qed.

(** Appending a record: below the threshold it only grows the buffer; at
    the threshold the whole buffer goes to [_add_batch] in one call, is
    counted and is emptied, whatever the store answers. *)
Lemma buffer_record_run collection record s :
  buffer_record collection record s =
    let buf := to_add s ++ [record] in
    if BATCH_SIZE <=? length buf then
      let r := _add_batch collection buf (set_to_add buf s) in
      (Done tt,
       set_to_add []
         (set_total_added (total_added s + length buf) (state_of r)),
       trace_of r)
    else (Done tt, set_to_add buf s, []).
Proof.
  cbv zeta. unfold buffer_record, bind, gets, modify, ret, BATCH_SIZE.
  cbn -[Nat.leb].
  destruct (16 <=? length (to_add s ++ [record])); [|done].
  destruct (_add_batch_returns collection (to_add s ++ [record])
              (set_to_add (to_add s ++ [record]) s)) as (c' & ok & ->).
  unfold state_of, trace_of. simpl. by destruct ok.
Qed.

Lemma buffer_record_returns collection record s :
  let buf := to_add s ++ [record] in
  if BATCH_SIZE <=? length buf then
    ∃ c' (ok : bool), buffer_record collection record s
             = (Done tt,
                set_to_add []
                  (set_total_added (total_added s + length buf)
                     (if ok then set_chroma c' (set_to_add buf s)
                      else set_to_add buf s)),
                [CollectionAdd collection buf ok])
  else buffer_record collection record s = (Done tt, set_to_add buf s, []).
Proof.
  cbv zeta. rewrite buffer_record_run. cbv zeta.
  destruct (BATCH_SIZE <=? length (to_add s ++ [record])); [|done].
  destruct (_add_batch_returns collection (to_add s ++ [record])
              (set_to_add (to_add s ++ [record]) s)) as (c' & ok & ->).
  exists c', ok. by destruct ok.
Qed.

Lemma process_chunk_batching collection existing file chunk s :
  length (to_add s) < BATCH_SIZE →
  let r := process_chunk collection existing file chunk s in
  (batches (trace_of r) = []
   ∨ ∃ b, batches (trace_of r) = [b] ∧ length b = BATCH_SIZE
          ∧ to_add (state_of r) = [])
  ∧ length (to_add (state_of r)) < BATCH_SIZE
  ∧ (result_of r = Done tt →
     rec_text <$> (submitted (trace_of r) ++ to_add (state_of r))
     = (rec_text <$> to_add s)
       ++ (if bool_decide (hash_id (chunk +:+ file) ∈ existing)
           then [] else [chunk])).
Proof.
  intros Hlen. unfold process_chunk.
  destruct (bool_decide _) eqn:Hex.
  { simpl. rewrite !app_nil_r. auto. }
  cbv zeta. rewrite bind_run.
  destruct (embedding_for_frame (hash_id (chunk +:+ file)) chunk s)
    as [Hbuf Hnone].
  destruct (embedding_for _ chunk s) as [[[emb|e] s1] t1];
    unfold result_of, state_of, trace_of in *; simpl in *.
  2:{ split; [by left|]. split; [by rewrite Hbuf|]. done. }
  set (record := mkRecord (hash_id (chunk +:+ file)) chunk emb file).
  pose proof (buffer_record_returns collection record s1) as Hrun.
  cbv zeta in Hrun. rewrite Hbuf in Hrun.
  assert (length (to_add s ++ [record]) = S (length (to_add s))) as Hlen'
    by (rewrite length_app; simpl; lia).
  destruct (Nat.leb_spec BATCH_SIZE (length (to_add s ++ [record])))
    as [Hfull|Hroom].
  - destruct Hrun as (c' & ok & ->). cbn [fst snd].
    rewrite batches_app, Hnone. unfold submitted.
    rewrite batches_app, Hnone. simpl. rewrite !app_nil_r.
    split; [|split].
    + right. eexists. split; [done|]. split; [|done]. lia.
    + unfold BATCH_SIZE. lia.
    + intros _. by rewrite fmap_app.
  - rewrite Hrun. simpl. rewrite !app_nil_r. unfold submitted.
    rewrite Hnone. simpl.
    split; [by left|]. split; [lia|].
    intros _. by rewrite fmap_app.
Qed.

Lemma chunk_loop_batching collection existing file chunks :
  ∀ s, length (to_add s) < BATCH_SIZE →
    let r := for_each (process_chunk collection existing file) chunks s in
    Forall (λ b, length b = BATCH_SIZE) (batches (trace_of r))
    ∧ length (to_add (state_of r)) < BATCH_SIZE
    ∧ (result_of r = Done tt →
       rec_text <$> (submitted (trace_of r) ++ to_add (state_of r))
       = (rec_text <$> to_add s)
         ++ List.filter (λ c, negb (bool_decide (hash_id (c +:+ file) ∈ existing)))
              chunks).
Proof.
  induction chunks as [|chunk chunks IH]; intros s Hlen.
  { cbn. rewrite !app_nil_r. by repeat split. }
  change (for_each ?body (chunk :: chunks))
    with (body chunk >> for_each body chunks).
  cbv zeta. rewrite bind_run.
  destruct (process_chunk_batching collection existing file chunk s Hlen)
    as (Hb1 & Hl1 & Ht1).
  destruct (process_chunk _ _ _ chunk s) as [[[[]|e] s1] t1];
    unfold result_of, state_of, trace_of in *; simpl in *.
  2:{ split; [|done]. destruct Hb1 as [->|(b & -> & Hb & _)];
        by repeat constructor. }
  destruct (IH s1 Hl1) as (Hb2 & Hl2 & Ht2). cbv zeta in Hb2, Hl2, Ht2.
  destruct (for_each _ chunks s1) as [[r2 s2] t2];
    unfold result_of, state_of, trace_of in *; simpl in *.
  split; [|split; [done|]].
  - rewrite batches_app. apply Forall_app. split; [|done].
    destruct Hb1 as [->|(b & -> & Hb & _)]; by repeat constructor.
  - intros Hdone. specialize (Ht1 eq_refl). specialize (Ht2 Hdone).
    rewrite submitted_app, <- app_assoc, fmap_app, Ht2.
    rewrite app_assoc, <- fmap_app, Ht1, <- app_assoc.
    f_equal. by destruct (bool_decide _).
Qed.

Lemma add_chunks_done collection existing file chunks s s' t :
  add_chunks collection existing file chunks s = (Done tt, s', t) →
  ∃ s1 t1,
    for_each (process_chunk collection existing file) chunks (set_to_add [] s)
      = (Done tt, s1, t1)
    ∧ to_add s' = to_add s1
    ∧ ((to_add s1 = [] ∧ t = t1)
       ∨ (to_add s1 ≠ []
          ∧ ∃ ok, t = t1 ++ [CollectionAdd collection (to_add s1) ok])).
Proof.
  unfold add_chunks. intros Hrun.
  apply bind_done_inv in Hrun as ([] & s0 & t0 & t' & Hmod & Hrest & ->).
  injection Hmod as <- <-.
  apply bind_done_inv in Hrest as ([] & s1 & t1 & t2 & Hloop & Hdrain & ->).
  exists s1, t1. split; [done|]. revert Hdrain. unfold bind, gets.
  cbn [fst snd]. destruct (to_add s1) as [|r0 buf] eqn:Hbuf.
  - intros [= <- <-]. split; [done|]. left. by rewrite !app_nil_r.
  - destruct (_add_batch_returns collection (r0 :: buf) s1) as (c' & ok & ->).
    unfold modify. intros [= <- <-].
    split; [by destruct ok|]. right. split; [done|]. by exists ok.
Qed.

(** *** What the store receives *)

Lemma store_after_app recs bs1 bs2 :
  store_after recs (bs1 ++ bs2) = store_after (store_after recs bs1) bs2.
Proof. revert recs. induction bs1 as [|b bs1 IH]; intros recs; simpl; auto. Qed.

Lemma stores_ret {A} collection (a : A) : stores collection (ret a).
Proof. intros s recs Hc. simpl. by rewrite insert_id. Qed.

Lemma stores_raise {A} collection e : stores collection (@raise A e).
Proof. intros s recs Hc. simpl. by rewrite insert_id. Qed.

Lemma stores_lift {A} collection (r : outcome A) : stores collection (lift r).
Proof. destruct r; [apply stores_ret | apply stores_raise]. Qed.

Lemma stores_gets {A} collection (f : Mem → A) : stores collection (gets f).
Proof. intros s recs Hc. simpl. by rewrite insert_id. Qed.

Lemma stores_emit collection ev :
  batches [ev] = [] → stores collection (emit ev).
Proof.
  intros Hev s recs Hc. unfold emit, state_of, trace_of. simpl fst.
  simpl snd. rewrite Hev. simpl. by rewrite insert_id.
Qed.

Lemma stores_modify collection f :
  (∀ s, chroma (f s) = chroma s) → stores collection (modify f).
Proof.
  intros Hf s recs Hc. unfold state_of, trace_of. simpl.
  by rewrite Hf, insert_id.
Qed.

Lemma stores_bind {A B} collection (m : M A) (f : A → M B) :
  stores collection m → (∀ a, stores collection (f a)) →
  stores collection (bind m f).
Proof.
  intros Hm Hf s recs Hc. rewrite bind_run. specialize (Hm s recs Hc).
  destruct (m s) as [[[a|e] s1] t1];
    unfold state_of, trace_of in *; simpl in *; [|done].
  rewrite batches_app, store_after_app.
  assert (chroma s1 !! collection = Some (store_after recs (batches t1)))
    as Hc1 by (by rewrite Hm, lookup_insert_eq).
  specialize (Hf a s1 _ Hc1). unfold state_of, trace_of in Hf.
  by rewrite Hf, Hm, insert_insert_eq.
Qed.

Lemma stores_try {A} collection (m : M A) (h : exn → M A) :
  stores collection m → (∀ e, stores collection (h e)) →
  stores collection (try_except m h).
Proof.
  intros Hm Hh s recs Hc. rewrite try_except_run. specialize (Hm s recs Hc).
  destruct (m s) as [[[a|e] s1] t1];
    unfold state_of, trace_of in *; simpl in *; [done|].
  rewrite batches_app, store_after_app.
  assert (chroma s1 !! collection = Some (store_after recs (batches t1)))
    as Hc1 by (by rewrite Hm, lookup_insert_eq).
  specialize (Hh e s1 _ Hc1). unfold state_of, trace_of in Hh.
  by rewrite Hh, Hm, insert_insert_eq.
Qed.

Lemma stores_for_each {A} collection (body : A → M unit) (xs : list A) :
  (∀ x, stores collection (body x)) → stores collection (for_each body xs).
Proof.
  intros Hb. induction xs as [|x xs IH]; [apply stores_ret|].
  change (for_each body (x :: xs)) with (body x >> for_each body xs).
  by apply stores_bind.
Qed.

Lemma _add_batch_stores collection batch :
  stores collection (_add_batch collection batch).
Proof.
  intros s recs Hc. rewrite _add_batch_run, Hc.
  destruct (store_add recs batch) as [recs'|] eqn:Hadd;
    unfold state_of, trace_of; simpl; rewrite Hadd; simpl; [done|].
  by rewrite insert_id.
Qed.

Ltac stores_step :=
  lazymatch goal with
  | |- stores _ (ret _) => apply stores_ret
  | |- stores _ (raise _) => apply stores_raise
  | |- stores _ (lift _) => apply stores_lift
  | |- stores _ (gets _) => apply stores_gets
  | |- stores _ (emit _) => apply stores_emit; reflexivity
  | |- stores _ (modify _) => apply stores_modify; intros ?; reflexivity
  | |- stores _ (_add_batch _ _) => apply _add_batch_stores
  | |- stores _ (bind _ _) => apply stores_bind; [|intros ?]
  | |- stores _ (try_except _ _) => apply stores_try; [|intros ?]
  | |- stores _ (for_each _ _) => apply stores_for_each; intros ?
  | |- stores _ (match ?x with _ => _ end) => destruct x eqn:?
  end.

Lemma add_chunks_stores collection existing file chunks :
  stores collection (add_chunks collection existing file chunks).
Proof.
  unfold add_chunks, process_chunk, embedding_for, buffer_record,
    load_cache, save_cache, json_load.
  repeat stores_step.
Qed.

(** *** A batch that fails does not stop the file *)

Lemma buffer_record_result collection record s :
  result_of (buffer_record collection record s) = Done tt.
Proof.
  rewrite buffer_record_run. cbv zeta. by destruct (_ <=? _).
Qed.

Lemma process_chunk_result collection existing file chunk s :
  open_cache_error (hash_id (chunk +:+ file)) = None →
  (∃ vec, embedder_encode chunk = Done vec) →
  result_of (process_chunk collection existing file chunk s) = Done tt.
Proof.
  intros Hopen [vec Hvec]. unfold process_chunk.
  destruct (bool_decide _); [done|]. cbv zeta.
  rewrite bind_run, embedding_for_run. cbv zeta. rewrite Hopen, Hvec.
  destruct (cache_dir s !! _) as [[|w]|].
  2: destruct (truthy w).
  all: unfold result_of at 1; simpl; apply buffer_record_result.
Qed.

Lemma add_chunks_result collection existing file chunks s :
  (∀ uid, open_cache_error uid = None) →
  (∀ chunk, chunk ∈ chunks → ∃ vec, embedder_encode chunk = Done vec) →
  result_of (add_chunks collection existing file chunks s) = Done tt.
Proof.
  intros Hopen Hvec. unfold add_chunks. rewrite bind_run.
  unfold modify at 1. cbn [fst snd result_of state_of trace_of].
  rewrite bind_run.
  assert (∀ s0, result_of (for_each (process_chunk collection existing file)
                             chunks s0) = Done tt) as Hloop.
  { induction chunks as [|chunk chunks IH]; intros s0; [done|].
    change (for_each ?body (chunk :: chunks))
      with (body chunk >> for_each body chunks).
    rewrite bind_run.
    pose proof (process_chunk_result collection existing file chunk s0
                  (Hopen _) (Hvec chunk ltac:(left))) as Hone.
    destruct (process_chunk _ _ _ chunk s0) as [[[[]|e] s1] t1];
      unfold result_of in *; simpl in *; [|done].
    apply IH. intros c Hc. apply Hvec. by right. }
  specialize (Hloop (set_to_add [] s)).
  destruct (for_each _ chunks (set_to_add [] s)) as [[[[]|e] s1] t1];
    unfold result_of in *; simpl in *; [|done].
  unfold bind, gets. simpl. destruct (to_add s1) as [|r0 buf]; [done|].
  by destruct (_add_batch_returns collection (r0 :: buf) s1)
    as (c' & ok & ->).
Qed.

(** What the chunk loop of a file has handed to the store when it
    returns, and what it leaves in the buffer. *)
Lemma add_chunks_shape collection existing file chunks s s' t :
  add_chunks collection existing file chunks s = (Done tt, s', t) →
  flushed_and_drained (batches t) (to_add s')
  ∧ rec_text <$> submitted t
    = List.filter (λ c, negb (bool_decide (hash_id (c +:+ file) ∈ existing)))
        chunks.
Proof.
  intros Hrun.
  apply add_chunks_done in Hrun as (s1 & t1 & Hloop & -> & Hdrain).
  destruct (chunk_loop_batching collection existing file chunks
              (set_to_add [] s)) as (Hfull & Hlen & Htexts);
    [unfold BATCH_SIZE; simpl; lia|].
  cbv zeta in Hfull, Hlen, Htexts. rewrite Hloop in Hfull, Hlen, Htexts.
  unfold result_of, state_of, trace_of in *. cbn [fst snd] in *.
  specialize (Htexts eq_refl). simpl in Htexts.
  destruct Hdrain as [[Hbuf ->]|[Hbuf [ok ->]]].
  - split.
    + exists (batches t1), []. rewrite app_nil_r. auto.
    + by rewrite Hbuf, app_nil_r in Htexts.
  - split.
    + rewrite batches_app. exists (batches t1), [to_add s1].
      split; [done|]. split; [done|]. right. split; [done|].
      split; [|done]. destruct (to_add s1); [done|simpl; lia].
    + rewrite submitted_app. unfold submitted at 2. simpl.
      by rewrite app_nil_r.
Qed.

(** C6.  The chunk loop of one file with its drain.  [_add_batch] makes
    one call to the store and returns whatever the store answers: an
    accepted batch is in the collection, a rejected one is reported,
    leaves the collection as it was and is not sent again.  Appending the
    record that brings the buffer to 16 hands the whole buffer to
    [_add_batch] and empties it, in either case.  When the loop returns,
    the batches are full batches of 16 followed by at most one shorter
    batch from the drain; put end to end they are the chunks whose id is
    not in the snapshot, each once and in order; the collection holds
    what the store made of these batches, one after the other.  The drain
    does not empty the buffer: the records of the last batch stay in it,
    and are discarded before the first chunk of the next file.  A store
    that rejects batches never makes the loop raise: it returns whenever
    the embedder returns for every chunk and the cache can be written. *)
Theorem buffer_is_flushed_at_16_and_failed_batches_dropped
    collection existing file chunks s s' t :
  add_chunks collection existing file chunks s = (Done tt, s', t) →
  flushed_and_drained (batches t) (to_add s')
  ∧ rec_text <$> submitted t
    = List.filter (λ c, negb (bool_decide (hash_id (c +:+ file) ∈ existing)))
        chunks
  ∧ (∀ recs, chroma s !! collection = Some recs →
             chroma s' = <[collection := store_after recs (batches t)]> (chroma s))
  ∧ (∀ batch s0,
       _add_batch collection batch s0 =
         match chroma s0 !! collection with
         | Some recs =>
             match store_add recs batch with
             | Some recs' =>
                 (Done tt, set_chroma (<[collection := recs']> (chroma s0)) s0,
                  [CollectionAdd collection batch true])
             | None => (Done tt, s0, [CollectionAdd collection batch false])
             end
         | None => (Done tt, s0, [CollectionAdd collection batch false])
         end)
  ∧ (∀ record s0,
       buffer_record collection record s0 =
         let buf := to_add s0 ++ [record] in
         if 16 <=? length buf then
           let r := _add_batch collection buf (set_to_add buf s0) in
           (Done tt,
            set_to_add []
              (set_total_added (total_added s0 + length buf) (state_of r)),
            trace_of r)
         else (Done tt, set_to_add buf s0, []))
  ∧ (∀ stale s0,
       add_chunks collection existing file chunks (set_to_add stale s0)
       = add_chunks collection existing file chunks s0)
  ∧ ((∀ uid, open_cache_error uid = None) →
     (∀ chunk, chunk ∈ chunks → ∃ vec, embedder_encode chunk = Done vec) →
     ∀ s0, result_of (add_chunks collection existing file chunks s0) = Done tt).
Proof.
  intros Hrun.
  destruct (add_chunks_shape _ _ _ _ _ _ _ Hrun) as [Hshape Htexts].
  split; [done|]. split; [done|]. split.
  { intros recs Hc.
    pose proof (add_chunks_stores collection existing file chunks s recs Hc)
      as Hstore.
    by rewrite Hrun in Hstore. }
  split; [apply _add_batch_run|]. split; [apply buffer_record_run|].
  split; [done|].
  intros Hopen Hvec s0. by apply add_chunks_result.
Qed.
(** *** Persisted state that cannot be read *)

Lemma load_hash_index_total s :
  load_hash_index s = (Done (index_of (hash_index_file s)), s, []).
Proof.
  unfold load_hash_index, json_load, try_except, bind, gets, ret, raise.
  simpl. by destruct (hash_index_file s) as [[|v]|].
Qed.

(** C8.  A hash index file that is missing or does not parse loads as the
    empty dict, without raising, and with that index a readable file is
    not skipped: its extraction is attempted.  A cache file that is
    missing or does not parse loads as [None], without raising, and the
    embedder is then called for the chunk.  Neither loader raises in any
    state. *)
Theorem unreadable_state_is_read_as_absent
    collection existing folder file b uid chunk s :
  read_bytes folder file = Some b →
  hash_index_file s = None ∨ hash_index_file s = Some Garbled →
  cache_dir s !! uid = None ∨ cache_dir s !! uid = Some Garbled →
  load_hash_index s = (Done (JDict ∅), s, [])
  ∧ (∃ rest, trace_of (process_file collection existing folder file
                         (set_file_hashes (JDict ∅) s))
             = HashFile file :: ExtractText file :: rest)
  ∧ load_cache uid s = (Done None, s, [CacheRead uid])
  ∧ (∃ rest, trace_of (embedding_for uid chunk s)
             = CacheRead uid :: Encode uid chunk :: rest)
  ∧ (∀ s0, ∃ v, load_hash_index s0 = (Done v, s0, []))
  ∧ (∀ s0, ∃ v, load_cache uid s0 = (Done v, s0, [CacheRead uid])).
Proof.
  intros Hb Hidx Hcache.
  split; [|split; [|split; [|split; [|split]]]].
  - rewrite load_hash_index_total. by destruct Hidx as [-> | ->].
  - rewrite process_file_run, Hb. simpl. rewrite lookup_empty. simpl.
    destruct (file_body_starts_with_extraction collection existing folder
                file (sha1_hexdigest b) (set_file_hashes (JDict ∅) s))
      as [rest Hrest].
    destruct (file_body _ _ _ _ _ _) as [[[[]|e] s1] t1];
      unfold result_of, trace_of in *; simpl in *; subst; by eexists.
  - rewrite load_cache_total. by destruct Hcache as [-> | ->].
  - rewrite embedding_for_run. cbv zeta.
    destruct Hcache as [-> | ->];
      destruct (embedder_encode chunk);
      destruct (open_cache_error uid); by eexists.
  - intros s0. eexists. apply load_hash_index_total.
  - intros s0. eexists. apply load_cache_total.
Qed.

(** *** A cached value that is falsy *)

(** C9.  Let the cache file of a chunk parse to a falsy value.  Then the
    chunk is handled as if the file were missing: same outcome and same
    calls, among them the call to the embedder.  When the embedder returns
    and the cache file can be opened for writing, the two runs end in the
    same state, whose cache entry holds the new vector; when the embedder
    raises, or the cache file cannot be opened, both raise that error
    after the same calls and the cache is as it was.  In any state the
    embedder is not called exactly when the cache file parses to a truthy
    value, and that value is then the embedding of the chunk whatever it
    is: for a list truthy means non-empty, but a string, a number or a
    dict can be truthy as well. *)
Theorem falsy_cache_entry_is_a_miss collection existing file chunk s v :
  truthy v = false →
  bool_decide (hash_id (chunk +:+ file) ∈ existing) = false →
  let uid := hash_id (chunk +:+ file) in
  let s_falsy := set_cache_dir (<[uid := Json v]> (cache_dir s)) s in
  let s_miss := set_cache_dir (delete uid (cache_dir s)) s in
  result_of (process_chunk collection existing file chunk s_falsy)
    = result_of (process_chunk collection existing file chunk s_miss)
  ∧ trace_of (process_chunk collection existing file chunk s_falsy)
    = trace_of (process_chunk collection existing file chunk s_miss)
  ∧ (∃ rest, trace_of (process_chunk collection existing file chunk s_falsy)
             = CacheRead uid :: Encode uid chunk :: rest)
  ∧ match embedder_encode chunk, open_cache_error uid with
    | Done vec, None =>
        process_chunk collection existing file chunk s_falsy
          = process_chunk collection existing file chunk s_miss
        ∧ embedding_for uid chunk s_falsy
          = (Done (JList (JNum <$> vec)),
             set_cache_dir (<[uid := Json (JList (JNum <$> vec))]> (cache_dir s)) s,
             [CacheRead uid; Encode uid chunk;
              CacheWrite uid (JList (JNum <$> vec))])
    | Done _, Some e | Raised e, _ =>
        embedding_for uid chunk s_falsy
          = (Raised e, s_falsy, [CacheRead uid; Encode uid chunk])
        ∧ embedding_for uid chunk s_miss
          = (Raised e, s_miss, [CacheRead uid; Encode uid chunk])
    end
  ∧ (∀ s0, trace_of (embedding_for uid chunk s0) = [CacheRead uid]
           ↔ ∃ w, cache_dir s0 !! uid = Some (Json w) ∧ truthy w = true)
  ∧ (∀ s0 w, cache_dir s0 !! uid = Some (Json w) → truthy w = true →
             embedding_for uid chunk s0 = (Done w, s0, [CacheRead uid]))
  ∧ (∀ l, truthy (JList l) = true ↔ l ≠ [])
  ∧ (∀ text, truthy (JStr text) = true ↔ text ≠ EmptyString).
Proof.
  intros Hv Hex uid s_falsy s_miss.
  pose proof (embedding_for_run uid chunk) as Hemb. cbv zeta in Hemb.
  assert (embedding_for uid chunk s_falsy =
          match embedder_encode chunk, open_cache_error uid with
          | Done vec, None =>
              (Done (JList (JNum <$> vec)),
               set_cache_dir (<[uid := Json (JList (JNum <$> vec))]> (cache_dir s)) s,
               [CacheRead uid; Encode uid chunk;
                CacheWrite uid (JList (JNum <$> vec))])
          | Done _, Some e | Raised e, _ =>
              (Raised e, s_falsy, [CacheRead uid; Encode uid chunk])
          end) as Hfalsy.
  { rewrite Hemb. unfold s_falsy. simpl. rewrite lookup_insert_eq, Hv.
    destruct (embedder_encode chunk); [|done].
    destruct (open_cache_error uid); [done|].
    by rewrite insert_insert_eq. }
  assert (embedding_for uid chunk s_miss =
          match embedder_encode chunk, open_cache_error uid with
          | Done vec, None =>
              (Done (JList (JNum <$> vec)),
               set_cache_dir (<[uid := Json (JList (JNum <$> vec))]> (cache_dir s)) s,
               [CacheRead uid; Encode uid chunk;
                CacheWrite uid (JList (JNum <$> vec))])
          | Done _, Some e | Raised e, _ =>
              (Raised e, s_miss, [CacheRead uid; Encode uid chunk])
          end) as Hmiss.
  { rewrite Hemb. unfold s_miss. simpl. rewrite lookup_delete_eq.
    destruct (embedder_encode chunk); [|done].
    destruct (open_cache_error uid); [done|].
    by rewrite insert_delete_eq. }
  assert (∀ s0, process_chunk collection existing file chunk s0 =
                bind (embedding_for uid chunk)
                  (λ emb, buffer_record collection (mkRecord uid chunk emb file)) s0)
    as Hpc.
  { intros s0. unfold process_chunk. cbv zeta. by rewrite Hex. }
  rewrite !Hpc, !bind_run, Hfalsy, Hmiss.
  split; [|split; [|split; [|split; [|split; [|split; [|split]]]]]].
  - by destruct (embedder_encode chunk), (open_cache_error uid).
  - by destruct (embedder_encode chunk), (open_cache_error uid).
  - destruct (embedder_encode chunk), (open_cache_error uid); simpl;
      by eexists.
  - by destruct (embedder_encode chunk), (open_cache_error uid).
  - intros s0. rewrite Hemb. split.
    + destruct (cache_dir s0 !! uid) as [[|w]|] eqn:Hc.
      2: destruct (truthy w) eqn:Hw; [by exists w|].
      all: by destruct (embedder_encode chunk), (open_cache_error uid).
    + intros (w & -> & ->). done.
  - intros s0 w Hc Hw. by rewrite Hemb, Hc, Hw.
  - intros l. by destruct l.
  - intros text. simpl. rewrite negb_true_iff, String.eqb_neq. done.
Qed.
(** *** Entries that are not PDFs *)

Lemma process_file_only_files collection existing folder file (P : string → Prop) :
  P file →
  respects (λ _, True) (only_files P)
           (process_file collection existing folder file).
Proof.
  intros HP.
  assert (∀ name b ok, Forall (λ r, P (rec_source r)) b →
                       only_files P (CollectionAdd name b ok)) as Hadd.
  { intros name b ok Hb. unfold only_files. simpl. by apply Forall_fmap. }
  unfold process_file, hash_file, dict_get, file_body, extract_text,
    split_text_semantically, commit_file, file_hashes_setitem,
    save_hash_index.
  repeat respects_step; try (by repeat constructor); simpl; try done.
  all: unfold add_chunks.
  all: apply (respects_establish (λ s, Forall (λ r, P (rec_source r)) (to_add s)));
    [by constructor | done |].
  all: apply respects_bind; [apply respects_for_each; intros chunk _|intros _].
  all: unfold process_chunk, embedding_for, buffer_record, load_cache,
    save_cache, _add_batch, collection_add, json_load.
  all: repeat respects_step; try (by apply Hadd);
    try (by repeat constructor); simpl in *; try done.
  all: apply Forall_app; split; [done|]; by repeat constructor.
Qed.

Lemma process_file_other_entries collection existing folder file f e0 :
  file ≠ f →
  respects (λ s, index_entry (file_hashes s) f = e0
                 ∧ index_entry (index_of (hash_index_file s)) f = e0)
           (λ _, True)
           (process_file collection existing folder file).
Proof.
  intros Hne.
  unfold process_file, hash_file, dict_get, file_body, extract_text,
    split_text_semantically, commit_file, file_hashes_setitem,
    save_hash_index.
  repeat respects_step; simpl in *; try done.
  all: try (eapply respects_weaken; [|apply add_chunks_frame]; by try done).
  all: try match goal with
           | H : file_hashes ?x = JDict _ |- _ =>
               repeat match goal with
                      | H' : _ ∧ _ |- _ => destruct H'
                      end;
               rewrite ?H in *; simpl in *
           end.
  all: try (split; [|done]; by rewrite lookup_insert_ne).
  all: by intuition.
Qed.

Lemma process_file_reads_its_file collection existing folder1 folder2 file :
  read_bytes folder1 file = read_bytes folder2 file →
  process_file collection existing folder1 file
  = process_file collection existing folder2 file.
Proof.
  intros Heq.
  unfold process_file, hash_file, file_body, extract_text. by rewrite Heq.
Qed.

(** C10.  A run only ever names entries of the folder that end in [.pdf]
    up to case: every file it hashes, skips, extracts, reports or gives as
    the source of a record is such an entry.  The run is the same for two
    folders that agree on those entries and their bytes, so no other entry
    is read and none can change what is written to the collection, the
    cache or the index; the index entry of a name that is not a PDF is
    after the run what it was before.  With no PDF entry at all
    [_process_pdfs] returns at once, leaving the whole state unchanged, and
    so does [load_pdfs] when the collection exists. *)
Theorem only_pdf_entries_are_considered collection folder s :
  Forall (only_files (λ f, f ∈ listdir folder ∧ is_pdf f = true))
         (trace_of (_process_pdfs collection folder s))
  ∧ (∀ folder',
       List.filter is_pdf (listdir folder') = List.filter is_pdf (listdir folder) →
       (∀ f, is_pdf f = true → read_bytes folder' f = read_bytes folder f) →
       _process_pdfs collection folder' s = _process_pdfs collection folder s)
  ∧ (∀ f, is_pdf f = false →
       index_entry (index_of (hash_index_file
                      (state_of (_process_pdfs collection folder s)))) f
       = index_entry (index_of (hash_index_file s)) f)
  ∧ (List.filter is_pdf (listdir folder) = [] →
     _process_pdfs collection folder s = (Done tt, s, [NoPdfFound])
     ∧ (is_Some (chroma s !! COLLECTION_NAME) →
        load_pdfs folder s = (Done COLLECTION_NAME, s, [NoPdfFound]))).
Proof.
  assert (∀ f, f ∈ List.filter is_pdf (listdir folder) →
               f ∈ listdir folder ∧ is_pdf f = true) as Hpdf.
  { intros f Hf. apply list_elem_of_In, List.filter_In in Hf as [Hf1 Hf2].
    split; [by apply list_elem_of_In | done]. }
  split; [|split; [|split]].
  - rewrite _process_pdfs_run.
    destruct (List.filter is_pdf (listdir folder)) as [|f0 files] eqn:Hfiles.
    { by repeat constructor. }
    cbv zeta. destruct (chroma s !! collection); [|constructor].
    match goal with
    | |- context [for_each ?b ?l ?st] =>
        destruct (respects_for_each (λ _, True)
                    (only_files (λ f, f ∈ listdir folder ∧ is_pdf f = true))
                    b l (λ x Hx, process_file_only_files _ _ _ x _ (Hpdf x Hx))
                    st I) as [_ Ht];
        destruct (for_each b l st) as [[[[]|e] s2] t2]
    end; unfold result_of, trace_of in *; simpl in *; [|done].
    apply Forall_app. split; [done|]. by repeat constructor.
  - intros folder' Hlist Hbytes. rewrite !_process_pdfs_run, Hlist.
    destruct (List.filter is_pdf (listdir folder)) as [|f0 files] eqn:Hfiles;
      [done|].
    cbv zeta. destruct (chroma s !! collection); [|done].
    rewrite (for_each_ext
               (process_file collection (snapshot s collection) folder')
               (process_file collection (snapshot s collection) folder)); [done|].
    intros f Hf. apply process_file_reads_its_file, Hbytes. by apply Hpdf.
  - intros f Hf. rewrite _process_pdfs_run.
    assert (∀ x, x ∈ List.filter is_pdf (listdir folder) → x ≠ f) as Hne.
    { intros x Hx ->. destruct (Hpdf _ Hx). congruence. }
    destruct (List.filter is_pdf (listdir folder)) as [|f0 files] eqn:Hfiles;
      [done|].
    cbv zeta. destruct (chroma s !! collection); [|done].
    match goal with
    | |- context [for_each ?b ?l ?st] =>
        destruct (respects_for_each
                    (λ s', index_entry (file_hashes s') f
                             = index_entry (index_of (hash_index_file s)) f
                           ∧ index_entry (index_of (hash_index_file s')) f
                             = index_entry (index_of (hash_index_file s)) f)
                    (λ _, True) b l
                    (λ x Hx, process_file_other_entries _ _ _ x f _ (Hne x Hx))
                    st) as [[_ Hidx] _]; [done|];
        destruct (for_each b l st) as [[[[]|e] s2] t2]
    end; by unfold result_of, state_of in *.
  - intros Hnone. split; [by rewrite _process_pdfs_run, Hnone|].
    intros [recs Hrecs]. rewrite load_pdfs_run. cbv zeta.
    by rewrite Hrecs, _process_pdfs_run, Hnone.
Qed.

(** *** Text utilities *)

Lemma append_cons (x : ascii) (a b : string) :
  String x a +:+ b = String x (a +:+ b).
Proof. reflexivity. Qed.

Lemma append_nil_r (s : string) : s +:+ EmptyString = s.
Proof. induction s as [|c s IH]; [done|]. by rewrite append_cons, IH. Qed.

Lemma append_assoc (a b c : string) : (a +:+ b) +:+ c = a +:+ (b +:+ c).
Proof. induction a as [|x a IH]; [done|]. by rewrite !append_cons, IH. Qed.

Lemma rev_app_spec (a b : string) : String.rev_app a b = String.rev a +:+ b.
Proof.
  revert b. induction a as [|x a IH]; intros b; [done|].
  unfold String.rev. cbn [String.rev_app].
  by rewrite (IH (String x EmptyString)), IH, append_assoc.
Qed.

Lemma rev_cons (x : ascii) (a : string) :
  String.rev (String x a) = String.rev a +:+ String x EmptyString.
Proof. unfold String.rev at 1. cbn [String.rev_app]. apply rev_app_spec. Qed.

Lemma rev_append (a b : string) :
  String.rev (a +:+ b) = String.rev b +:+ String.rev a.
Proof.
  induction a as [|x a IH]; [by rewrite append_nil_r|].
  by rewrite append_cons, !rev_cons, IH, append_assoc.
Qed.

Lemma rev_involutive (a : string) : String.rev (String.rev a) = a.
Proof.
  induction a as [|x a IH]; [done|].
  by rewrite rev_cons, rev_append, IH.
Qed.

Lemma lstrip_append (a b : string) :
  Text.lstrip (a +:+ b) =
    match Text.lstrip a with
    | EmptyString => Text.lstrip b
    | String _ _ => Text.lstrip a +:+ b
    end.
Proof.
  induction a as [|x a IH]; [done|].
  rewrite append_cons. cbn [Text.lstrip].
  by destruct (Text.isspace x).
Qed.

(** [rstrip], read from the left. *)
Lemma rstrip_cons (c : ascii) (s : string) :
  Text.rstrip (String c s) =
    match Text.rstrip s with
    | EmptyString => if Text.isspace c then EmptyString else String c EmptyString
    | String _ _ => String c (Text.rstrip s)
    end.
Proof.
  unfold Text.rstrip. rewrite rev_cons, lstrip_append.
  destruct (Text.lstrip (String.rev s)) as [|y z] eqn:Hl.
  - cbn [Text.lstrip]. by destruct (Text.isspace c).
  - rewrite rev_append. change (String.rev (String c EmptyString))
      with (String c EmptyString).
    rewrite append_cons. change (EmptyString +:+ ?x) with x.
    rewrite rev_cons. by destruct (String.rev z).
Qed.

Lemma rstrip_word_first (s : string) :
  word_first s = true → word_first (Text.rstrip s) = true.
Proof.
  destruct s as [|c s]; [done|]. cbn [word_first]. intros Hc.
  rewrite rstrip_cons.
  destruct (Text.rstrip s); destruct (Text.isspace c) eqn:E; try done.
  all: cbn; by rewrite E.
Qed.

Lemma lstrip_word_first (s : string) :
  Text.lstrip s = EmptyString ∨ word_first (Text.lstrip s) = true.
Proof.
  induction s as [|c s IH]; [by left|]. cbn [Text.lstrip].
  destruct (Text.isspace c) eqn:Hc; [done|]. right. cbn. by rewrite Hc.
Qed.

Lemma non_space_lstrip (s : string) : non_space (Text.lstrip s) = non_space s.
Proof.
  induction s as [|c s IH]; [done|]. cbn [Text.lstrip non_space].
  destruct (Text.isspace c) eqn:Hc; [done|]. cbn. by rewrite Hc.
Qed.

Lemma non_space_rstrip (s : string) : non_space (Text.rstrip s) = non_space s.
Proof.
  induction s as [|c s IH]; [done|]. rewrite rstrip_cons.
  cbn [non_space]. rewrite <- IH.
  destruct (Text.rstrip s) as [|y z].
  - destruct (Text.isspace c) eqn:Hc; cbn; by rewrite ?Hc.
  - cbn [non_space]. done.
Qed.

Lemma lstrip_blank_iff (s : string) :
  Text.lstrip s = EmptyString ↔ non_space s = EmptyString.
Proof.
  induction s as [|c s IH]; [done|]. cbn [Text.lstrip non_space].
  by destruct (Text.isspace c).
Qed.

Lemma rstrip_blank_iff (s : string) :
  Text.rstrip s = EmptyString ↔ non_space s = EmptyString.
Proof.
  induction s as [|c s IH]; [done|]. rewrite rstrip_cons.
  cbn [non_space].
  destruct (Text.rstrip s) as [|y z]; destruct (Text.isspace c); try done.
  split; [done|]. intros H. by apply IH in H.
Qed.

Lemma strip_blank_iff (s : string) :
  Text.strip s = EmptyString ↔ non_space s = EmptyString.
Proof.
  unfold Text.strip. by rewrite rstrip_blank_iff, non_space_lstrip.
Qed.

Lemma sub_spaces_tidy (b : bool) (s : string) :
  tidy (Text.sub_spaces b s) = true
  ∧ (b = true → space_first (Text.sub_spaces b s) = false).
Proof.
  revert b. induction s as [|c s IH]; intros b; [done|].
  cbn [Text.sub_spaces]. destruct (Text.isspace c) eqn:Hc.
  - destruct (IH true) as [Ht Hf]. destruct b; [done|].
    split; [|done]. cbn [tidy]. rewrite Ht, Hf by done. done.
  - destruct (IH false) as [Ht _]. cbn [tidy space_first].
    by rewrite Hc, Ht.
Qed.

Lemma tidy_lstrip (s : string) : tidy s = true → tidy (Text.lstrip s) = true.
Proof.
  induction s as [|c s IH]; [done|]. cbn [Text.lstrip].
  destruct (Text.isspace c); [|done].
  cbn [tidy]. intros [_ Hs]%andb_true_iff. by apply IH.
Qed.

Lemma spaced_cons (c : ascii) (s : string) :
  spaced (String c s)
  = (if Text.isspace c then Ascii.eqb c " " && word_first s else true)
    && spaced s.
Proof. reflexivity. Qed.

Lemma tidy_rstrip_spaced (s : string) :
  tidy s = true → spaced (Text.rstrip s) = true.
Proof.
  induction s as [|c s IH]; [done|].
  cbn [tidy]. intros [Hc Hs]%andb_true_iff. specialize (IH Hs).
  rewrite rstrip_cons.
  destruct (Text.rstrip s) as [|y z] eqn:Hr.
  { destruct (Text.isspace c) eqn:E; [done|]. cbn. by rewrite E. }
  rewrite spaced_cons, IH, andb_true_r.
  destruct (Text.isspace c); [|done].
  apply andb_true_iff in Hc as [-> Hnext]. cbn [andb].
  rewrite <- Hr. apply rstrip_word_first.
  destruct s as [|d s]; [done|]. cbn in *. by destruct (Text.isspace d).
Qed.

Lemma spaced_replace_nbsp (s : string) :
  spaced s = true → Text.replace_nbsp s = s.
Proof.
  induction s as [|c s IH]; [done|].
  cbn [spaced Text.replace_nbsp]. intros [Hc Hs]%andb_true_iff.
  rewrite (IH Hs). destruct (nat_of_ascii c =? 160) eqn:E; [|done].
  apply Nat.eqb_eq in E. exfalso. revert Hc. unfold Text.isspace.
  rewrite E. cbn. intros [Hblank _]%andb_true_iff.
  apply Ascii.eqb_eq in Hblank. by subst c.
Qed.

Lemma spaced_sub_spaces (b : bool) (s : string) :
  spaced s = true → (b = true → word_first s = true) →
  Text.sub_spaces b s = s.
Proof.
  revert b. induction s as [|c s IH]; intros b; [done|].
  cbn [spaced Text.sub_spaces word_first].
  intros [Hc Hs]%andb_true_iff Hb.
  destruct (Text.isspace c) eqn:E.
  - apply andb_true_iff in Hc as [Hblank Hnext].
    apply Ascii.eqb_eq in Hblank. subst c.
    destruct b; [by specialize (Hb eq_refl)|].
    by rewrite (IH true).
  - by rewrite (IH false).
Qed.

Lemma spaced_rstrip (s : string) : spaced s = true → Text.rstrip s = s.
Proof.
  induction s as [|c s IH]; [done|].
  cbn [spaced]. intros [Hc Hs]%andb_true_iff.
  rewrite rstrip_cons, (IH Hs). destruct s as [|d s]; [|done].
  destruct (Text.isspace c); [|done]. by rewrite andb_false_r in Hc.
Qed.

Lemma non_space_replace_nbsp (s : string) :
  non_space (Text.replace_nbsp s) = non_space s.
Proof.
  induction s as [|c s IH]; [done|]. cbn [Text.replace_nbsp non_space].
  rewrite IH. destruct (nat_of_ascii c =? 160) eqn:E; [|done].
  apply Nat.eqb_eq in E. unfold Text.isspace. rewrite E. done.
Qed.

Lemma non_space_sub_spaces (b : bool) (s : string) :
  non_space (Text.sub_spaces b s) = non_space s.
Proof.
  revert b. induction s as [|c s IH]; intros b; [done|].
  cbn [Text.sub_spaces non_space]. destruct (Text.isspace c) eqn:E.
  - destruct b; [done|]. cbn [non_space]. by rewrite (IH true).
  - cbn [non_space]. by rewrite E, (IH false).
Qed.

Lemma clean_text_normalised (u : string) : normalised (clean_text u) = true.
Proof.
  unfold clean_text, Text.strip.
  set (w := Text.sub_spaces false (Text.replace_nbsp u)).
  assert (tidy (Text.lstrip w) = true) as Htidy
    by (apply tidy_lstrip, sub_spaces_tidy).
  pose proof (tidy_rstrip_spaced _ Htidy) as Hsp.
  destruct (lstrip_word_first w) as [Hl|Hl].
  - by rewrite Hl.
  - apply rstrip_word_first in Hl.
    destruct (Text.rstrip (Text.lstrip w)); [done|].
    unfold normalised. by rewrite Hl, Hsp.
Qed.

Lemma clean_text_blank_iff (t : string) :
  clean_text t = EmptyString ↔ Text.strip t = EmptyString.
Proof.
  rewrite strip_blank_iff. unfold clean_text at 1.
  by rewrite strip_blank_iff, non_space_sub_spaces, non_space_replace_nbsp.
Qed.

(** X1.  [clean_text] returns words separated by single blanks: in its
    result every white-space character is a plain blank standing between
    two characters that are not white space.  A text of that shape is
    returned as it is, so cleaning twice is cleaning once. *)
Theorem clean_text_normalises (t : string) :
  normalised (clean_text t) = true
  ∧ (∀ s, normalised s = true → clean_text s = s)
  ∧ clean_text (clean_text t) = clean_text t.
Proof.
  pose proof clean_text_normalised as Hnorm.
  assert (∀ s, normalised s = true → clean_text s = s) as Hid.
  { intros s Hs. destruct s as [|c s]; [done|].
    unfold normalised in Hs. apply andb_true_iff in Hs as [Hw Hsp].
    unfold clean_text, Text.strip.
    rewrite (spaced_replace_nbsp _ Hsp), (spaced_sub_spaces false _ Hsp) by done.
    assert (Text.lstrip (String c s) = String c s) as ->.
    { cbn in *. by destruct (Text.isspace c). }
    by apply spaced_rstrip. }
  split; [done|]. split; [done|]. by apply Hid.
Qed.

(** X2.  [clean_text] keeps the characters that are not white space, all
    of them and in order, and its result is empty exactly when
    [text.strip()] is: the test that skips a file as empty is the test
    that the cleaned text handed to the splitter would be empty. *)
Theorem clean_text_keeps_the_words (t : string) :
  non_space (clean_text t) = non_space t
  ∧ (clean_text t = EmptyString ↔ Text.strip t = EmptyString).
Proof.
  assert (non_space (clean_text t) = non_space t) as Hwords.
  { unfold clean_text, Text.strip.
    by rewrite non_space_rstrip, non_space_lstrip, non_space_sub_spaces,
      non_space_replace_nbsp. }
  split; [done|]. apply clean_text_blank_iff.
Qed.

(** *** Which names are PDFs *)

Lemma prefix_spec (a b : string) :
  String.prefix a b = true ↔ ∃ c, b = a +:+ c.
Proof.
  revert b. induction a as [|x a IH]; intros b.
  - split; [intros _; by exists b | by destruct b].
  - destruct b as [|y b]; cbn [String.prefix].
    + split; [done | by intros [c Hc]].
    + destruct (ascii_dec x y) as [->|Hne].
      * rewrite IH. split; intros [c Hc]; exists c.
        -- by rewrite append_cons, Hc.
        -- rewrite append_cons in Hc. by injection Hc.
      * split; [done|]. intros [c Hc]. rewrite append_cons in Hc.
        injection Hc as Hxy _. by subst.
Qed.

Lemma endswith_spec (s suffix : string) :
  Text.endswith s suffix = true ↔ ∃ stem, s = stem +:+ suffix.
Proof.
  unfold Text.endswith. rewrite prefix_spec. split.
  - intros [c Hc]. exists (String.rev c).
    rewrite <- (rev_involutive s), Hc, rev_append. by rewrite rev_involutive.
  - intros [stem ->]. exists (String.rev stem). apply rev_append.
Qed.

Lemma lower_append (a b : string) :
  Text.lower (a +:+ b) = Text.lower a +:+ Text.lower b.
Proof.
  induction a as [|x a IH]; [done|].
  rewrite append_cons. cbn [Text.lower]. by rewrite IH, append_cons.
Qed.

Lemma lower_append_inv (s a' b' : string) :
  Text.lower s = a' +:+ b' →
  ∃ a b, s = a +:+ b ∧ Text.lower a = a' ∧ Text.lower b = b'.
Proof.
  revert s. induction a' as [|x a' IH]; intros s Hs.
  - by exists EmptyString, s.
  - destruct s as [|c s]; [done|]. rewrite append_cons in Hs.
    cbn [Text.lower] in Hs. injection Hs as Hc Hs.
    destruct (IH s Hs) as (a & b & -> & Ha & Hb).
    exists (String c a), b. rewrite append_cons. cbn [Text.lower].
    by rewrite Hc, Ha.
Qed.

Lemma lower_char_dot (c : ascii) :
  Text.lower_char c = "."%char ↔ c = "."%char.
Proof.
  split; [|by intros ->].
  destruct c as [[] [] [] [] [] [] [] []]; vm_compute; by intros [=].
Qed.

Lemma lower_char_p (c : ascii) :
  Text.lower_char c = "p"%char ↔ c = "p"%char ∨ c = "P"%char.
Proof.
  split; [|by intros [-> | ->]].
  destruct c as [[] [] [] [] [] [] [] []]; vm_compute; intros [=]; auto.
Qed.

Lemma lower_char_d (c : ascii) :
  Text.lower_char c = "d"%char ↔ c = "d"%char ∨ c = "D"%char.
Proof.
  split; [|by intros [-> | ->]].
  destruct c as [[] [] [] [] [] [] [] []]; vm_compute; intros [=]; auto.
Qed.

Lemma lower_char_f (c : ascii) :
  Text.lower_char c = "f"%char ↔ c = "f"%char ∨ c = "F"%char.
Proof.
  split; [|by intros [-> | ->]].
  destruct c as [[] [] [] [] [] [] [] []]; vm_compute; intros [=]; auto.
Qed.

(** X3.  A directory entry is taken for a PDF exactly when its name ends
    in a dot followed by the letters p, d, f, each in either case; what
    comes before the dot does not matter and may be empty. *)
Theorem is_pdf_iff (f : string) :
  is_pdf f = true ↔
  ∃ stem c1 c2 c3,
    f = stem +:+ String "."%char (String c1 (String c2 (String c3 EmptyString)))
    ∧ (c1 = "p"%char ∨ c1 = "P"%char)
    ∧ (c2 = "d"%char ∨ c2 = "D"%char)
    ∧ (c3 = "f"%char ∨ c3 = "F"%char).
Proof.
  unfold is_pdf. rewrite endswith_spec. split.
  - intros [stem' Hlow].
    apply lower_append_inv in Hlow as (stem & ext & -> & _ & Hext).
    destruct ext as [|c0 [|c1 [|c2 [|c3 [|c4 ext]]]]]; try done.
    cbn [Text.lower] in Hext. injection Hext as H0 H1 H2 H3.
    apply lower_char_dot in H0 as ->.
    apply lower_char_p in H1. apply lower_char_d in H2.
    apply lower_char_f in H3. by exists stem, c1, c2, c3.
  - intros (stem & c1 & c2 & c3 & -> & H1 & H2 & H3).
    exists (Text.lower stem). rewrite lower_append. f_equal.
    cbn [Text.lower].
    apply lower_char_p in H1. apply lower_char_d in H2.
    apply lower_char_f in H3. by rewrite H1, H2, H3.
Qed.

(** *** The embedding cache over time *)

(** X4.  Once [embedding_for] has returned a truthy embedding for a chunk
    id, every later request for that id, whatever the chunk text, returns
    the same embedding from the cache without calling the embedder.  A
    falsy embedding (an empty vector) is written to the cache but never
    read back as a hit: every later request calls the embedder again.  No
    other cache entry is touched. *)
Theorem cached_embedding_is_reused uid chunk s emb s1 t :
  embedding_for uid chunk s = (Done emb, s1, t) →
  (if truthy emb
   then ∀ chunk', embedding_for uid chunk' s1 = (Done emb, s1, [CacheRead uid])
   else ∀ chunk', ∃ rest, trace_of (embedding_for uid chunk' s1)
                          = CacheRead uid :: Encode uid chunk' :: rest)
  ∧ ∀ uid', uid' ≠ uid → cache_dir s1 !! uid' = cache_dir s !! uid'.
Proof.
  rewrite embedding_for_run. cbv zeta. intros Hrun.
  assert (cache_dir s1 !! uid = Some (Json emb)
          ∧ ∀ uid', uid' ≠ uid → cache_dir s1 !! uid' = cache_dir s !! uid')
    as [Hentry Hothers].
  { destruct (cache_dir s !! uid) as [[|w]|] eqn:Hc.
    2: destruct (truthy w) eqn:Hw.
    2: by injection Hrun as <- <- <-.
    all: destruct (embedder_encode chunk) as [vec|e]; [|done].
    all: destruct (open_cache_error uid); [done|].
    all: injection Hrun as <- <- <-; simpl.
    all: split; [by rewrite lookup_insert_eq|].
    all: intros uid' Hne; by rewrite lookup_insert_ne. }
  split; [|done].
  destruct (truthy emb) eqn:Hemb; intros chunk'.
  - by rewrite embedding_for_run, Hentry, Hemb.
  - rewrite embedding_for_run, Hentry, Hemb. cbv zeta.
    destruct (embedder_encode chunk'), (open_cache_error uid); by eexists.
Qed.

(** The chunk loop, the commit and the file loop keep any property of the
    state that embedding lookups keep, that does not depend on the buffer,
    the counter or the index, and that an accepted [collection.add]
    keeps. *)
Lemma process_file_keeps collection existing folder file (K : Mem → Prop) :
  (∀ uid chunk, respects K (λ _, True) (embedding_for uid chunk)) →
  (∀ s v, K s → K (set_to_add v s)) →
  (∀ s v, K s → K (set_total_added v s)) →
  (∀ s v, K s → K (set_file_hashes v s)) →
  (∀ s v, K s → K (set_hash_index_file v s)) →
  (∀ s s0 recs batch recs',
      K s → K s0 → chroma s0 !! collection = Some recs →
      store_add recs batch = Some recs' →
      K (set_chroma (<[collection := recs']> (chroma s0)) s)) →
  respects K (λ _, True) (process_file collection existing folder file).
Proof.
  intros Kemb Kt Kn Kf Ki Kadd.
  unfold process_file, hash_file, dict_get, file_body, extract_text,
    split_text_semantically, commit_file, file_hashes_setitem,
    save_hash_index, add_chunks.
  repeat respects_step; simpl; try done; eauto.
  all: apply respects_bind; [apply respects_modify; auto|]; intros _.
  all: apply respects_bind; [apply respects_for_each; intros chunk _|intros _].
  all: unfold process_chunk, buffer_record, _add_batch, collection_add.
  all: repeat respects_step; simpl in *; try done; subst; eauto.
Qed.

Lemma _process_pdfs_keeps collection folder (K : Mem → Prop) :
  (∀ uid chunk, respects K (λ _, True) (embedding_for uid chunk)) →
  (∀ s v, K s → K (set_to_add v s)) →
  (∀ s v, K s → K (set_total_added v s)) →
  (∀ s v, K s → K (set_file_hashes v s)) →
  (∀ s v, K s → K (set_hash_index_file v s)) →
  (∀ s s0 recs batch recs',
      K s → K s0 → chroma s0 !! collection = Some recs →
      store_add recs batch = Some recs' →
      K (set_chroma (<[collection := recs']> (chroma s0)) s)) →
  ∀ s, K s → K (state_of (_process_pdfs collection folder s)).
Proof.
  intros Kemb Kt Kn Kf Ki Kadd s Hs. rewrite _process_pdfs_run.
  destruct (List.filter is_pdf (listdir folder)) as [|f files]; [done|].
  cbv zeta. destruct (chroma s !! collection); [|by apply Kf].
  match goal with
  | |- context [for_each ?b ?l ?st] =>
      destruct (respects_for_each K (λ _, True) b l
                  (λ x _, process_file_keeps _ _ _ x K Kemb Kt Kn Kf Ki Kadd)
                  st) as [Hk _]; [by apply Kn, Kf|];
      by destruct (for_each b l st) as [[[[]|e] s2] t2]
  end.
Qed.

Lemma reload_pdfs_run folder s :
  reload_pdfs folder s =
    let r := load_pdfs folder
               (set_chroma (delete COLLECTION_NAME (chroma s)) s) in
    (result_of r, state_of r,
     match chroma s !! COLLECTION_NAME with
     | Some _ => [DeleteCollection COLLECTION_NAME]
     | None => []
     end ++ trace_of r).
Proof.
  cbv zeta. rewrite load_pdfs_run. cbv zeta. simpl.
  rewrite lookup_delete_eq.
  unfold reload_pdfs, delete_collection, create_collection, bind, gets,
    modify, emit, ret, raise, result_of, state_of, trace_of.
  simpl.
  destruct (chroma s !! COLLECTION_NAME) as [recs|] eqn:Hc.
  - rewrite bool_decide_eq_true_2 by (apply elem_of_dom; by rewrite Hc).
    rewrite Hc. simpl. rewrite lookup_delete_eq. simpl.
    destruct (_process_pdfs _ _ _) as [[[[]|e] s1] t1]; simpl;
      by rewrite ?app_nil_r.
  - rewrite bool_decide_eq_false_2
      by (rewrite elem_of_dom, Hc; by intros [? ?]).
    rewrite Hc. simpl. rewrite (delete_id _ _ Hc).
    destruct (_process_pdfs _ _ _) as [[[[]|e] s1] t1]; simpl;
      by rewrite ?app_nil_r.
Qed.

Lemma embedding_for_keeps_valid_entry uid v uid' chunk :
  truthy v = true →
  respects (λ s, cache_dir s !! uid = Some (Json v)) (λ _, True)
           (embedding_for uid' chunk).
Proof.
  intros Hv s Hs. split; [|by apply Forall_true].
  rewrite embedding_for_run. cbv zeta.
  destruct (decide (uid' = uid)) as [->|Hne].
  - by rewrite Hs, Hv.
  - destruct (cache_dir s !! uid') as [[|w]|].
    2: destruct (truthy w); [done|].
    all: destruct (embedder_encode chunk); [|done].
    all: destruct (open_cache_error uid'); [done|].
    all: unfold state_of; simpl; by rewrite lookup_insert_ne.
Qed.

(** X5.  A cache entry that holds a truthy value is never overwritten or
    removed: after [_process_pdfs], [load_pdfs] or [reload_pdfs], whether
    they return or raise, the entry holds the same value. *)
Theorem valid_cache_entries_are_kept folder s uid v :
  cache_dir s !! uid = Some (Json v) →
  truthy v = true →
  (∀ collection,
      cache_dir (state_of (_process_pdfs collection folder s)) !! uid
      = Some (Json v))
  ∧ cache_dir (state_of (load_pdfs folder s)) !! uid = Some (Json v)
  ∧ cache_dir (state_of (reload_pdfs folder s)) !! uid = Some (Json v).
Proof.
  intros Hentry Hv.
  assert (∀ collection s0,
            cache_dir s0 !! uid = Some (Json v) →
            cache_dir (state_of (_process_pdfs collection folder s0)) !! uid
            = Some (Json v)) as Hrun.
  { intros collection s0 Hs0.
    apply (_process_pdfs_keeps collection folder
             (λ s', cache_dir s' !! uid = Some (Json v))); try done.
    intros uid' chunk. by apply embedding_for_keeps_valid_entry. }
  assert (∀ s0, cache_dir s0 !! uid = Some (Json v) →
                cache_dir (state_of (load_pdfs folder s0)) !! uid
                = Some (Json v)) as Hload.
  { intros s0 Hs0. rewrite load_pdfs_run. cbv zeta.
    unfold state_of at 1. simpl. apply Hrun.
    by destruct (chroma s0 !! COLLECTION_NAME). }
  split; [by auto|]. split; [by auto|].
  assert (state_of (reload_pdfs folder s)
          = state_of (load_pdfs folder
                        (set_chroma (delete COLLECTION_NAME (chroma s)) s)))
    as -> by (by rewrite reload_pdfs_run).
  by apply Hload.
Qed.

(** *** Collections *)

(** X7.  [load_pdfs] and [reload_pdfs] only ever touch the collection
    [laws]: every other collection of the client holds after the call what
    it held before.  After either call, whether it returned or raised, the
    collection [laws] exists. *)
Theorem other_collections_are_left_alone folder s name :
  name ≠ COLLECTION_NAME →
  chroma (state_of (load_pdfs folder s)) !! name = chroma s !! name
  ∧ chroma (state_of (reload_pdfs folder s)) !! name = chroma s !! name
  ∧ is_Some (chroma (state_of (load_pdfs folder s)) !! COLLECTION_NAME)
  ∧ is_Some (chroma (state_of (reload_pdfs folder s)) !! COLLECTION_NAME).
Proof.
  intros Hne.
  assert (∀ s0 x,
            chroma s0 !! name = x →
            chroma (state_of (_process_pdfs COLLECTION_NAME folder s0)) !! name = x)
    as Hother.
  { intros s0 x Hs0.
    apply (_process_pdfs_keeps COLLECTION_NAME folder
             (λ s', chroma s' !! name = x)); try done.
    - intros uid chunk s1 Hs1. split; [|by apply Forall_true].
      rewrite embedding_for_run. cbv zeta.
      destruct (cache_dir s1 !! uid) as [[|w]|].
      2: destruct (truthy w); [done|].
      all: by destruct (embedder_encode chunk), (open_cache_error uid).
    - intros s1 s2 recs batch recs' Hs1 Hs2 _ _. simpl.
      by rewrite lookup_insert_ne. }
  assert (∀ s0,
            is_Some (chroma s0 !! COLLECTION_NAME) →
            is_Some (chroma (state_of (_process_pdfs COLLECTION_NAME folder s0))
                       !! COLLECTION_NAME)) as Hlaws.
  { intros s0 Hs0.
    apply (_process_pdfs_keeps COLLECTION_NAME folder
             (λ s', is_Some (chroma s' !! COLLECTION_NAME))); try done.
    - intros uid chunk s1 Hs1. split; [|by apply Forall_true].
      rewrite embedding_for_run. cbv zeta.
      destruct (cache_dir s1 !! uid) as [[|w]|].
      2: destruct (truthy w); [done|].
      all: by destruct (embedder_encode chunk), (open_cache_error uid).
    - intros s1 s2 recs batch recs' Hs1 Hs2 _ _. simpl.
      by rewrite lookup_insert_eq. }
  assert (∀ s0, chroma (state_of (load_pdfs folder s0)) !! name = chroma s0 !! name
                ∧ is_Some (chroma (state_of (load_pdfs folder s0)) !! COLLECTION_NAME))
    as Hload.
  { intros s0. rewrite load_pdfs_run. cbv zeta. unfold state_of at 1 3. simpl.
    destruct (chroma s0 !! COLLECTION_NAME) as [recs|] eqn:Hc.
    - split; [by apply Hother|]. apply Hlaws. by rewrite Hc.
    - split.
      + apply Hother. simpl. by rewrite lookup_insert_ne.
      + apply Hlaws. simpl. by rewrite lookup_insert_eq. }
  destruct (Hload s) as [H1 H2].
  destruct (Hload (set_chroma (delete COLLECTION_NAME (chroma s)) s))
    as [H3 H4].
  assert (state_of (reload_pdfs folder s)
          = state_of (load_pdfs folder
                        (set_chroma (delete COLLECTION_NAME (chroma s)) s)))
    as -> by (by rewrite reload_pdfs_run).
  repeat split; try done.
  rewrite H3. simpl. by rewrite lookup_delete_ne.
Qed.

(** X8.  [reload_pdfs] is [load_pdfs] run after the collection [laws] has
    been removed from the client: same outcome and same final state, and
    the same calls after the deletion.  The hash index and the cache are
    not reset by it. *)
Theorem reload_is_load_after_delete folder s :
  let s0 := set_chroma (delete COLLECTION_NAME (chroma s)) s in
  reload_pdfs folder s
  = (result_of (load_pdfs folder s0), state_of (load_pdfs folder s0),
     match chroma s !! COLLECTION_NAME with
     | Some _ => [DeleteCollection COLLECTION_NAME]
     | None => []
     end ++ trace_of (load_pdfs folder s0))
  ∧ hash_index_file s0 = hash_index_file s
  ∧ cache_dir s0 = cache_dir s.
Proof. split; [apply reload_pdfs_run | done]. Qed.

(** *** The reported total *)

Lemma counts_ret {A} (a : A) : counts (ret a).
Proof. intros s. unfold state_of, trace_of, submitted. simpl. lia. Qed.

Lemma counts_raise {A} e : counts (@raise A e).
Proof. intros s. unfold state_of, trace_of, submitted. simpl. lia. Qed.

Lemma counts_lift {A} (r : outcome A) : counts (lift r).
Proof. destruct r; [apply counts_ret | apply counts_raise]. Qed.

Lemma counts_gets {A} (f : Mem → A) : counts (gets f).
Proof. intros s. unfold state_of, trace_of, submitted. simpl. lia. Qed.

Lemma counts_emit ev : batches [ev] = [] → counts (emit ev).
Proof.
  intros Hev s. unfold emit, state_of, trace_of, submitted. simpl fst.
  simpl snd. rewrite Hev. simpl. lia.
Qed.

Lemma counts_modify f :
  (∀ s, total_added (f s) = total_added s) → counts (modify f).
Proof.
  intros Hf s. unfold state_of, trace_of, submitted. simpl. rewrite Hf. lia.
Qed.

Lemma counts_bind {A B} (m : M A) (f : A → M B) :
  counts m → (∀ a, counts (f a)) → counts (bind m f).
Proof.
  intros Hm Hf s. rewrite bind_run. specialize (Hm s).
  destruct (m s) as [[[a|e] s1] t1];
    unfold state_of, trace_of in *; simpl in *; [|done].
  rewrite submitted_app, length_app. specialize (Hf a s1).
  unfold state_of, trace_of in Hf. lia.
Qed.

Lemma counts_try {A} (m : M A) (h : exn → M A) :
  counts m → (∀ e, counts (h e)) → counts (try_except m h).
Proof.
  intros Hm Hh s. rewrite try_except_run. specialize (Hm s).
  destruct (m s) as [[[a|e] s1] t1];
    unfold state_of, trace_of in *; simpl in *; [done|].
  rewrite submitted_app, length_app. specialize (Hh e s1).
  unfold state_of, trace_of in Hh. lia.
Qed.

Lemma counts_for_each {A} (body : A → M unit) (xs : list A) :
  (∀ x, counts (body x)) → counts (for_each body xs).
Proof.
  intros Hb. induction xs as [|x xs IH]; [apply counts_ret|].
  change (for_each body (x :: xs)) with (body x >> for_each body xs).
  by apply counts_bind.
Qed.

Ltac counts_step :=
  lazymatch goal with
  | |- counts (ret _) => apply counts_ret
  | |- counts (raise _) => apply counts_raise
  | |- counts (lift _) => apply counts_lift
  | |- counts (gets _) => apply counts_gets
  | |- counts (emit _) => apply counts_emit; reflexivity
  | |- counts (modify _) => apply counts_modify; intros ?; reflexivity
  | |- counts (bind _ _) => apply counts_bind; [|intros ?]
  | |- counts (try_except _ _) => apply counts_try; [|intros ?]
  | |- counts (for_each _ _) => apply counts_for_each; intros ?
  | |- counts (match ?x with _ => _ end) => destruct x eqn:?
  end.

Lemma embedding_for_counts uid chunk : counts (embedding_for uid chunk).
Proof.
  unfold embedding_for, load_cache, save_cache, json_load.
  repeat counts_step.
Qed.

Lemma buffer_record_counts collection record :
  counts (buffer_record collection record).
Proof.
  intros s. pose proof (buffer_record_returns collection record s) as Hrun.
  cbv zeta in Hrun.
  destruct (BATCH_SIZE <=? length (to_add s ++ [record])).
  - destruct Hrun as (c' & ok & ->). unfold state_of, trace_of, submitted.
    simpl. rewrite app_nil_r. by destruct ok.
  - rewrite Hrun. unfold state_of, trace_of, submitted. simpl. lia.
Qed.

Lemma add_chunks_counts collection existing file chunks :
  counts (add_chunks collection existing file chunks).
Proof.
  unfold add_chunks.
  apply counts_bind; [counts_step|]. intros _.
  apply counts_bind.
  { apply counts_for_each. intros chunk. unfold process_chunk.
    repeat counts_step;
      [apply embedding_for_counts | apply buffer_record_counts]. }
  intros _ s.
  unfold bind, gets, modify, ret, state_of, trace_of, submitted. simpl.
  destruct (to_add s) as [|r0 buf] eqn:Hbuf; [simpl; lia|].
  destruct (_add_batch_returns collection (r0 :: buf) s) as (c' & ok & ->).
  simpl. rewrite app_nil_r. destruct ok; simpl; lia.
Qed.

Lemma process_file_counts collection existing folder file :
  counts (process_file collection existing folder file).
Proof.
  unfold process_file, hash_file, dict_get, file_body, extract_text,
    split_text_semantically, commit_file, file_hashes_setitem,
    save_hash_index.
  repeat counts_step; apply add_chunks_counts.
Qed.

(** X6.  When [_process_pdfs] runs to its end over a folder with at least
    one PDF, the total it reports last is the number of records it handed
    to [collection.add] during the run, in accepted and in rejected
    batches alike; records still in the buffer when a file failed are not
    in it. *)
Theorem reported_total_counts_submitted_records collection folder s :
  result_of (_process_pdfs collection folder s) = Done tt →
  List.filter is_pdf (listdir folder) ≠ [] →
  ∃ t0, trace_of (_process_pdfs collection folder s)
        = t0 ++ [TotalAdded (length (submitted t0))]
        ∧ total_added (state_of (_process_pdfs collection folder s))
          = length (submitted t0).
Proof.
  rewrite _process_pdfs_run.
  destruct (List.filter is_pdf (listdir folder)) as [|f files]; [done|].
  cbv zeta. intros Hdone _.
  destruct (chroma s !! collection); [|done].
  match goal with
  | |- context [for_each ?b ?l ?st] =>
      pose proof (counts_for_each b l
                    (process_file_counts collection _ folder) st) as Hcount;
      destruct (for_each b l st) as [[[[]|e] s2] t2]
  end; [|done].
  unfold result_of, state_of, trace_of in *. simpl in *.
  exists t2. by rewrite Hcount.
Qed.

(** *** Edges of the file loop *)

(** X9.  The id is the digest of the chunk text directly followed by the
    file name, with nothing between them.  So the tail of a chunk can be
    read as the head of a file name: when the collection already holds
    the id of chunk [x ++ y] of file [f], the chunk [x] of a file named
    [y ++ f] has the same id and is skipped as already stored. *)
Theorem chunk_and_file_name_are_not_separated collection existing x y f s :
  hash_id ((x +:+ y) +:+ f) ∈ existing →
  hash_id (x +:+ (y +:+ f)) = hash_id ((x +:+ y) +:+ f)
  ∧ process_chunk collection existing (y +:+ f) x s = (Done tt, s, []).
Proof.
  intros Hin. split; [by rewrite append_assoc|].
  unfold process_chunk. rewrite <- append_assoc.
  by rewrite bool_decide_eq_true_2.
Qed.

(** X10.  An index file that parses to something other than a dict is
    fatal, unlike one that does not parse at all: the lookup
    [file_hashes.get] of the first PDF stands outside the [try] block and
    raises.  The run stops there; nothing on disk and no collection has
    changed, and no file was extracted. *)
Theorem non_dict_index_aborts_the_run collection folder s v f files b recs :
  hash_index_file s = Some (Json v) →
  (∀ m, v ≠ JDict m) →
  List.filter is_pdf (listdir folder) = f :: files →
  read_bytes folder f = Some b →
  chroma s !! collection = Some recs →
  _process_pdfs collection folder s
    = (Raised (Exception "AttributeError"),
       set_total_added 0 (set_file_hashes v s), [HashFile f])
  ∧ persisted (state_of (_process_pdfs collection folder s)) = persisted s.
Proof.
  intros Hidx Hv Hfiles Hb Hc.
  assert (_process_pdfs collection folder s
          = (Raised (Exception "AttributeError"),
             set_total_added 0 (set_file_hashes v s), [HashFile f])) as Hrun.
  { rewrite _process_pdfs_run, Hfiles, Hc, Hidx. cbv zeta.
    change (for_each ?body (f :: files)) with (body f >> for_each body files).
    rewrite bind_run, process_file_run, Hb. simpl.
    destruct v; try done. by destruct (Hv d). }
  by rewrite Hrun.
Qed.

Lemma for_each_app {A} (body : A → M unit) (xs ys : list A) s :
  for_each body (xs ++ ys) s = (for_each body xs >> for_each body ys) s.
Proof.
  revert s. induction xs as [|x xs IH]; intros s.
  - change (for_each body ([] ++ ys) s) with (for_each body ys s).
    change (for_each body []) with (@ret unit tt). unfold bind, ret.
    by destruct (for_each body ys s) as [[r s1] t1].
  - change (for_each body ((x :: xs) ++ ys) s)
      with ((body x >> for_each body (xs ++ ys)) s).
    change (for_each body (x :: xs)) with (body x >> for_each body xs).
    rewrite !bind_run. destruct (body x s) as [[[[]|e] s1] t1]; [|done].
    rewrite IH, !bind_run.
    destruct (for_each body xs s1) as [[[[]|e] s2] t2];
      unfold result_of, state_of, trace_of; simpl; [|done].
    by rewrite app_assoc.
Qed.

(** X11.  A PDF entry that cannot be opened is fatal as well: [hash_file]
    stands outside the [try] block.  The file loop raises at that entry
    with the state the earlier files left, and the entries after it are
    not even hashed. *)
Theorem unreadable_pdf_aborts_the_run
    collection existing folder before f rest s s1 t1 :
  for_each (process_file collection existing folder) before s
    = (Done tt, s1, t1) →
  read_bytes folder f = None →
  for_each (process_file collection existing folder) (before ++ f :: rest) s
    = (Raised (Exception "OSError"), s1, t1 ++ [HashFile f]).
Proof.
  intros Hbefore Hf. rewrite for_each_app, bind_run, Hbefore.
  change (for_each ?body (f :: rest)) with (body f >> for_each body rest).
  by rewrite bind_run, process_file_run, Hf.
Qed.

(** X12.  A PDF whose extracted text is blank is reported and left: the
    round of the file loop returns with the state unchanged, so the file
    is not recorded in the index and every later run extracts it again. *)
Theorem blank_file_is_never_recorded
    collection existing folder file b m text s :
  read_bytes folder file = Some b →
  file_hashes s = JDict m →
  equals_str (m !! file) (sha1_hexdigest b) = false →
  result_of (extract_text folder file s) = Done text →
  Text.strip text = EmptyString →
  process_file collection existing folder file s
    = (Done tt, s, [HashFile file; ExtractText file; EmptyText file]).
Proof.
  intros Hb Hm Hne Htext Hblank.
  rewrite process_file_run, Hb, Hm, Hne. cbv zeta.
  unfold file_body. rewrite bind_run.
  pose proof (extract_text_state folder file s) as Hxs.
  pose proof (extract_text_trace folder file s) as Hxt.
  destruct (extract_text folder file s) as [[[text'|e] s2] t2];
    unfold result_of, state_of, trace_of in *; simpl in *; [|done].
  injection Htext as ->. subst. by rewrite Hblank.
Qed.

(** X14.  Processing one file leaves the index entry of every other file
    as it was, in memory and on disk, whether the file is skipped,
    committed or fails. *)
Theorem processing_a_file_keeps_the_other_entries
    collection existing folder file g e s :
  file ≠ g →
  index_entry (file_hashes s) g = e →
  index_entry (index_of (hash_index_file s)) g = e →
  index_entry (file_hashes
                 (state_of (process_file collection existing folder file s))) g
    = e
  ∧ index_entry (index_of (hash_index_file
                   (state_of (process_file collection existing folder file s)))) g
    = e.
Proof.
  intros Hne Hmem Hdisk.
  by destruct (process_file_other_entries collection existing folder file g e
                 Hne s (conj Hmem Hdisk)) as [Hkeep _].
Qed.

(** *** What stays in the collection and in the index *)

Lemma embedding_for_keeps_chroma uid chunk (K : Mem → Prop) :
  (∀ s v, K s → K (set_cache_dir v s)) →
  respects K (λ _, True) (embedding_for uid chunk).
Proof.
  intros Kc s Hs. split; [|by apply Forall_true].
  rewrite embedding_for_run. cbv zeta.
  destruct (cache_dir s !! uid) as [[|w]|].
  2: destruct (truthy w); [done|].
  all: destruct (embedder_encode chunk); [|done].
  all: destruct (open_cache_error uid); [done|].
  all: by apply Kc.
Qed.

(** X15.  Ingestion only ever calls [add] on the collection.  So with a
    store whose [add] keeps the ids it holds, as Chroma's does, an id that
    is in the collection before [_process_pdfs] or [load_pdfs] is in it
    afterwards: the chunks of an earlier version of a file are never
    removed when the file changes. *)
Theorem ingestion_never_removes_an_id folder s id :
  (∀ recs batch recs',
      store_add recs batch = Some recs' →
      ∀ i, i ∈ (rec_id <$> recs) → i ∈ (rec_id <$> recs')) →
  (∀ collection,
      id ∈ snapshot s collection →
      id ∈ snapshot (state_of (_process_pdfs collection folder s)) collection)
  ∧ (id ∈ snapshot s COLLECTION_NAME →
     id ∈ snapshot (state_of (load_pdfs folder s)) COLLECTION_NAME).
Proof.
  intros Hstore.
  assert (∀ collection s0,
            id ∈ snapshot s0 collection →
            id ∈ snapshot (state_of (_process_pdfs collection folder s0))
                   collection) as Hrun.
  { intros collection s0 Hs0.
    apply (_process_pdfs_keeps collection folder
             (λ s', id ∈ snapshot s' collection)); try done.
    - intros uid chunk. by apply embedding_for_keeps_chroma.
    - intros s1 s2 recs batch recs' _ Hs2 Hrecs Hadd.
      unfold snapshot in *. simpl. rewrite lookup_insert_eq.
      rewrite Hrecs in Hs2. apply elem_of_list_to_set.
      apply elem_of_list_to_set in Hs2. by eapply Hstore. }
  split; [by auto|].
  intros Hin. rewrite load_pdfs_run. cbv zeta.
  change (state_of (?r, ?st, ?t)) with st. apply Hrun.
  unfold snapshot in Hin.
  destruct (chroma s !! COLLECTION_NAME) eqn:Hc.
  - unfold snapshot. by rewrite Hc.
  - by apply elem_of_empty in Hin.
Qed.

(** How the [try] block of a file can return: the text was blank and
    nothing changed, or the file was committed. *)
Lemma file_body_returns collection existing folder file h s s' t :
  file_body collection existing folder file h s = (Done tt, s', t) →
  (s' = s ∧ t = [ExtractText file; EmptyText file])
  ∨ ∃ m t0 n,
      file_hashes s = JDict m
      ∧ file_hashes s' = JDict (<[file := JStr h]> m)
      ∧ hash_index_file s' = Some (Json (file_hashes s'))
      ∧ t = ExtractText file :: t0
            ++ [SaveHashIndex (file_hashes s'); FileDone file n]
      ∧ Forall chunk_event t0.
Proof.
  unfold file_body. intros Hrun.
  pose proof (extract_text_state folder file s) as Hxs.
  pose proof (extract_text_trace folder file s) as Hxt.
  apply bind_done_inv in Hrun as (text & s2 & t2 & t3 & Hx & Hrest & ->).
  rewrite Hx in Hxs, Hxt. unfold state_of, trace_of in Hxs, Hxt.
  simpl in Hxs, Hxt. subst.
  destruct (String.eqb (Text.strip text) EmptyString).
  { injection Hrest as <- <-. by left. }
  apply bind_done_inv in Hrest as (chunks & s3 & t4 & t5 & Hsp & Hrest & ->).
  assert (s3 = s ∧ t4 = []) as [-> ->].
  { unfold split_text_semantically, lift in Hsp.
    destruct (split_text _); [|done]. by injection Hsp as <- <- <-. }
  apply bind_done_inv in Hrest as ([] & s4 & t6 & t7 & Hadd & Hcommit & ->).
  destruct (add_chunks_index collection existing file chunks s)
    as (Hi & Hf & Hev).
  rewrite Hadd in Hi, Hf, Hev. unfold state_of, trace_of in Hi, Hf, Hev.
  simpl in Hi, Hf, Hev. revert Hcommit.
  unfold commit_file, file_hashes_setitem, save_hash_index, bind, gets,
    modify, emit, raise. simpl.
  rewrite Hf. destruct (file_hashes s) as [| | | | |m]; try done.
  simpl. destruct open_index_error; [done|].
  simpl. intros [= <- <-]. right.
  by exists m, t6, (length chunks).
Qed.

(** X16.  A file whose recorded digest differs from the digest of its
    bytes is processed again, and when its [try] block runs to the commit
    the index, in memory and on disk, records the new digest in place of
    the old one. *)
Theorem changed_file_is_processed_again
    collection existing folder file b m old s s' t :
  read_bytes folder file = Some b →
  file_hashes s = JDict m →
  m !! file = Some (JStr old) →
  old ≠ sha1_hexdigest b →
  file_body collection existing folder file (sha1_hexdigest b) s
    = (Done tt, s', t) →
  Forall no_failure t →
  process_file collection existing folder file s
    = (Done tt, s', HashFile file :: t)
  ∧ (∃ rest, t = ExtractText file :: rest)
  ∧ index_entry (file_hashes s') file = Some (JStr (sha1_hexdigest b))
  ∧ hash_index_file s' = Some (Json (file_hashes s')).
Proof.
  intros Hb Hm Hold Hne Hbody Hok.
  assert (equals_str (m !! file) (sha1_hexdigest b) = false) as Hskip.
  { rewrite Hold. simpl. by apply String.eqb_neq. }
  split.
  { rewrite process_file_run, Hb, Hm, Hskip. cbv zeta. by rewrite Hbody. }
  destruct (file_body_returns _ _ _ _ _ _ _ _ Hbody)
    as [[_ ->]|(m' & t0 & n & Hm' & Hs' & Hdisk & -> & _)].
  { inversion Hok as [|? ? _ Hok']. by inversion Hok'. }
  split; [by eexists|]. split; [|done].
  rewrite Hs'. simpl. by rewrite lookup_insert_eq.
Qed.

Lemma process_file_synced collection existing folder file :
  open_index_error = None →
  respects synced (λ _, True) (process_file collection existing folder file).
Proof.
  intros Hopen s Hs. split; [|by apply Forall_true].
  rewrite process_file_run.
  destruct (read_bytes folder file) as [b|]; [|done].
  destruct (file_hashes s) as [| | | | |m] eqn:Hm; try done.
  destruct (equals_str _ _); [done|]. cbv zeta.
  destruct (file_body collection existing folder file (sha1_hexdigest b) s)
    as [[[[]|e] s1] t1] eqn:Hbody; unfold result_of, state_of; simpl.
  - destruct (file_body_returns _ _ _ _ _ _ _ _ Hbody)
      as [[-> _]|(m' & t0 & n & _ & _ & Hdisk & _)]; [done|].
    unfold synced. by rewrite Hdisk.
  - apply file_body_raised in Hbody
      as (Hi & _ & [Hfail|[[Hf _]|(m' & _ & _ & Hfalse)]]).
    + apply (fails_before_commit_raises _ _ _ _ (sha1_hexdigest b))
        in Hfail as (_ & _ & Hf & _).
      unfold synced in *. by rewrite Hi, Hf.
    + unfold synced in *. by rewrite Hi, Hf.
    + congruence.
Qed.

(** X17.  When the index file can be opened for writing, every commit is
    written through: after [_process_pdfs] over a folder with a PDF entry,
    whether it returned or raised, the index file on disk holds the index
    the run had in memory (for a missing or unparsable file, the empty
    one). *)
Theorem index_on_disk_follows_memory collection folder s :
  open_index_error = None →
  List.filter is_pdf (listdir folder) ≠ [] →
  synced (state_of (_process_pdfs collection folder s)).
Proof.
  intros Hopen Hfiles. rewrite _process_pdfs_run.
  destruct (List.filter is_pdf (listdir folder)) as [|f files]; [done|].
  cbv zeta. destruct (chroma s !! collection); [|done].
  match goal with
  | |- context [for_each ?body ?l ?st] =>
      destruct (respects_for_each synced (λ _, True) body l
                  (λ x _, process_file_synced _ _ _ x Hopen) st) as [Hk _];
        [done|];
      by destruct (for_each body l st) as [[[[]|e] s2] t2]
  end.
Qed.

(** What a [load_pdfs] that returned without a failed file leaves. *)
Lemma load_pdfs_records_every_file folder s0 s1 t1 :
  load_pdfs folder s0 = (Done COLLECTION_NAME, s1, t1) →
  Forall no_failure t1 →
  List.filter is_pdf (listdir folder) ≠ [] →
  synced s1 ∧ ∀ g, g ∈ List.filter is_pdf (listdir folder) → recorded folder g s1.
Proof.
  rewrite load_pdfs_run. cbv zeta. intros [= Hres Hs1 Ht1] Hok Hfiles.
  rewrite <- Ht1 in Hok. apply Forall_app in Hok as [_ Hok]. clear Ht1.
  rewrite _process_pdfs_run in Hres, Hs1, Hok.
  destruct (List.filter is_pdf (listdir folder)) as [|f files]; [done|].
  cbv zeta in Hres, Hs1, Hok.
  match type of Hres with
  | context [chroma ?st !! COLLECTION_NAME] =>
      destruct (chroma st !! COLLECTION_NAME); [|done]
  end.
  match type of Hres with
  | context [for_each ?body ?l ?st] =>
      destruct (for_each body l st) as [[[[]|e] sb] tb] eqn:Hloop
  end; unfold result_of, state_of, trace_of in *; simpl in *; [|done].
  subst s1. apply Forall_app in Hok as [Hok _].
  by apply for_each_process_file_commits in Hloop as (Hsync & Hrec & _).
Qed.

Lemma load_pdfs_keeps_laws folder s :
  is_Some (chroma (state_of (load_pdfs folder s)) !! COLLECTION_NAME).
Proof.
  rewrite load_pdfs_run. cbv zeta.
  change (state_of (?r, ?st, ?t)) with st.
  apply (_process_pdfs_keeps COLLECTION_NAME folder
           (λ s', is_Some (chroma s' !! COLLECTION_NAME))); try done.
  - intros uid chunk. by apply embedding_for_keeps_chroma.
  - intros s1 s2 recs batch recs' _ _ _ _. simpl.
    by rewrite lookup_insert_eq.
  - destruct (chroma s !! COLLECTION_NAME) eqn:Hc; [by rewrite Hc|].
    simpl. by rewrite lookup_insert_eq.
Qed.

(** X18.  After a [load_pdfs] that returned without a failed file,
    [reload_pdfs] over the same folder deletes the collection, creates it
    again and skips every file on its digest: the collection it returns is
    empty. *)
Theorem reload_after_load_leaves_an_empty_collection folder s0 s1 t1 :
  load_pdfs folder s0 = (Done COLLECTION_NAME, s1, t1) →
  Forall no_failure t1 →
  result_of (reload_pdfs folder s1) = Done COLLECTION_NAME
  ∧ trace_of (reload_pdfs folder s1)
    = DeleteCollection COLLECTION_NAME :: CreateCollection COLLECTION_NAME
      :: all_skipped (List.filter is_pdf (listdir folder))
  ∧ chroma (state_of (reload_pdfs folder s1)) !! COLLECTION_NAME = Some [].
Proof.
  intros Hload Hok.
  assert (is_Some (chroma s1 !! COLLECTION_NAME)) as [recs Hrecs].
  { pose proof (load_pdfs_keeps_laws folder s0) as Hlaws.
    by rewrite Hload in Hlaws. }
  assert (∃ s2, reload_pdfs folder s1
                = (Done COLLECTION_NAME, s2,
                   DeleteCollection COLLECTION_NAME
                   :: CreateCollection COLLECTION_NAME
                   :: all_skipped (List.filter is_pdf (listdir folder)))
                ∧ chroma s2 !! COLLECTION_NAME = Some [])
    as (s2 & -> & Hs2); [|done].
  rewrite reload_pdfs_run, Hrecs. cbv zeta.
  rewrite load_pdfs_run. cbv zeta. simpl chroma.
  rewrite lookup_delete_eq, _process_pdfs_run.
  destruct (List.filter is_pdf (listdir folder)) as [|f files] eqn:Hfiles.
  { unfold result_of, state_of, trace_of. simpl. eexists.
    split; [reflexivity|]. simpl. by rewrite lookup_insert_eq. }
  destruct (load_pdfs_records_every_file _ _ _ _ Hload Hok) as [Hsync Hrec];
    [by rewrite Hfiles|].
  rewrite Hfiles in Hrec. cbv zeta. simpl chroma. rewrite lookup_insert_eq.
  rewrite for_each_process_file_skips.
  2:{ intros g Hg. destruct (Hrec g Hg) as (b & Hb & Hg'). exists b.
      split; [done|]. simpl. unfold synced in Hsync. by rewrite Hsync. }
  unfold result_of, state_of, trace_of. simpl. eexists.
  split; [reflexivity|]. simpl. by rewrite lookup_insert_eq.
Qed.


(** X20.  The fallback to pdfplumber covers blank output of the first
    engine only.  When Unstructured is in use and [partition_pdf] raises,
    [extract_text] does not turn to pdfplumber: the exception leaves it,
    the file is reported as failed, and nothing is split, embedded, stored
    or recorded for it. *)
Theorem failing_first_engine_fails_the_file
    collection existing folder file b m e s :
  read_bytes folder file = Some b →
  file_hashes s = JDict m →
  equals_str (m !! file) (sha1_hexdigest b) = false →
  USE_UNSTRUCTURED = true →
  partition_pdf b = Raised e →
  extract_text folder file s = (Raised e, s, [ExtractText file])
  ∧ process_file collection existing folder file s
    = (Done tt, s, [HashFile file; ExtractText file; FileError file e]).
Proof.
  intros Hb Hm Heq Huse Hpart.
  assert (extract_text folder file s = (Raised e, s, [ExtractText file]))
    as Hx.
  { unfold extract_text, bind, emit, lift, raise, ret.
    by rewrite Hb, Huse, Hpart. }
  split; [done|].
  rewrite process_file_run, Hb, Hm, Heq. cbv zeta.
  unfold file_body. rewrite bind_run, Hx.
  by unfold result_of, state_of, trace_of.
Qed.
(** *** The id of a chunk *)

Lemma process_chunk_buffers collection existing file chunk s emb s1 t1 :
  bool_decide (hash_id (chunk +:+ file) ∈ existing) = false →
  embedding_for (hash_id (chunk +:+ file)) chunk s = (Done emb, s1, t1) →
  let r := process_chunk collection existing file chunk s in
  result_of r = Done tt
  ∧ submitted (trace_of r) ++ to_add (state_of r)
    = to_add s ++ [mkRecord (hash_id (chunk +:+ file)) chunk emb file].
Proof.
  intros Hex Hemb. cbv zeta. unfold process_chunk. rewrite Hex. cbv zeta.
  rewrite bind_run, Hemb.
  destruct (embedding_for_frame (hash_id (chunk +:+ file)) chunk s)
    as [Hbuf Hnone].
  rewrite Hemb in Hbuf, Hnone. unfold state_of, trace_of in Hbuf, Hnone.
  simpl in Hbuf, Hnone.
  set (record := mkRecord (hash_id (chunk +:+ file)) chunk emb file).
  rewrite buffer_record_run. cbv zeta. rewrite Hbuf.
  destruct (BATCH_SIZE <=? length (to_add s ++ [record])).
  - destruct (_add_batch_returns collection (to_add s ++ [record])
                (set_to_add (to_add s ++ [record]) s1)) as (c' & ok & ->).
    unfold result_of, state_of, trace_of, submitted. simpl.
    rewrite batches_app, Hnone. simpl. by rewrite !app_nil_r.
  - unfold result_of, state_of, trace_of, submitted. simpl.
    by rewrite app_nil_r, Hnone.
Qed.

Lemma process_chunk_reads_the_cache collection existing file chunk s :
  bool_decide (hash_id (chunk +:+ file) ∈ existing) = false →
  ∃ rest, trace_of (process_chunk collection existing file chunk s)
          = CacheRead (hash_id (chunk +:+ file)) :: rest.
Proof.
  intros Hex. unfold process_chunk. rewrite Hex. cbv zeta.
  rewrite bind_run, embedding_for_run. cbv zeta.
  destruct (cache_dir s !! _) as [[|w]|].
  2: destruct (truthy w).
  all: destruct (embedder_encode chunk);
    destruct (open_cache_error (hash_id (chunk +:+ file))); by eexists.
Qed.

(** C7.  The id of a chunk is the SHA-1 hexdigest of the UTF-8 bytes of
    the chunk text followed by the file name, a function of the pair
    alone: no state, collection or run enters it.  That id is the one
    looked up in the snapshot and in the cache, and a chunk that is not
    skipped and whose embedding is found or computed goes into the buffer
    as a record with that id, its text and its file.  When the chunk loop
    of a file returns, the records handed to the store are the chunks
    that were not skipped, in order, each with the id of its text and the
    file.  In a whole run every record handed to the store carries the
    digest of its own text and source, the source is a PDF of the folder,
    and every id sent to the embedder is the digest of the chunk it comes
    with followed by the name of such a file. *)
Theorem chunk_id_is_digest_of_text_then_file
    collection existing file chunks s s' t :
  add_chunks collection existing file chunks s = (Done tt, s', t) →
  let derive := λ chunk, sha1_hexdigest (Text.utf8 (chunk +:+ file)) in
  let added := List.filter (λ c, negb (bool_decide (derive c ∈ existing)))
                 chunks in
  rec_text <$> submitted t = added
  ∧ rec_id <$> submitted t = derive <$> added
  ∧ rec_source <$> submitted t = (λ _, file) <$> added
  ∧ (∀ chunk s0,
       hash_id (chunk +:+ file) = derive chunk
       ∧ if bool_decide (derive chunk ∈ existing)
         then process_chunk collection existing file chunk s0 = (Done tt, s0, [])
         else (∃ rest, trace_of (process_chunk collection existing file chunk s0)
                       = CacheRead (derive chunk) :: rest)
              ∧ ∀ emb s1 t1,
                  embedding_for (derive chunk) chunk s0 = (Done emb, s1, t1) →
                  let r := process_chunk collection existing file chunk s0 in
                  result_of r = Done tt
                  ∧ submitted (trace_of r) ++ to_add (state_of r)
                    = to_add s0 ++ [mkRecord (derive chunk) chunk emb file])
  ∧ (∀ folder s0,
       Forall (ids_derived (λ f, f ∈ List.filter is_pdf (listdir folder)))
         (trace_of (_process_pdfs collection folder s0))
       ∧ Forall id_is_digest
           (submitted (trace_of (_process_pdfs collection folder s0)))).
Proof.
  intros Hrun derive added.
  destruct (add_chunks_shape _ _ _ _ _ _ _ Hrun) as [_ Htexts].
  change (rec_text <$> submitted t = added) in Htexts.
  pose proof (add_chunks_ids collection existing file chunks s I) as [_ Hids].
  rewrite Hrun in Hids. unfold trace_of in Hids. simpl in Hids.
  apply ids_derived_submitted in Hids.
  assert (rec_id <$> submitted t = derive <$> (rec_text <$> submitted t)
          ∧ rec_source <$> submitted t
            = (λ _, file) <$> (rec_text <$> submitted t)) as [Hid Hsrc].
  { clear Htexts. induction Hids as [|r l [Hr Hf] _ [IH1 IH2]]; [done|].
    rewrite !fmap_cons, IH1, IH2. split; f_equal; [|done].
    unfold derive. by rewrite Hr, Hf. }
  rewrite Htexts in Hid, Hsrc.
  split; [done|]. split; [done|]. split; [done|]. split.
  - intros chunk s0. split; [done|].
    destruct (bool_decide (derive chunk ∈ existing)) eqn:Hex.
    + unfold process_chunk. cbv zeta.
      change (hash_id (chunk +:+ file)) with (derive chunk). by rewrite Hex.
    + split; [by apply process_chunk_reads_the_cache|].
      intros emb s1 t1 Hemb. by eapply process_chunk_buffers.
  - intros folder s0.
    pose proof (_process_pdfs_ids collection folder s0 I) as [_ Ht].
    split; [done|].
    apply ids_derived_submitted in Ht.
    eapply Forall_impl; [|exact Ht]. by intros r [Hr _].
Qed.

(** *** Ids that are in the collection *)

Lemma _process_pdfs_keeps_ids collection folder s id :
  store_keeps_ids →
  id ∈ snapshot s collection →
  id ∈ snapshot (state_of (_process_pdfs collection folder s)) collection.
Proof.
  intros Hstore Hs.
  apply (_process_pdfs_keeps collection folder
           (λ s', id ∈ snapshot s' collection)); try done.
  - intros uid chunk. by apply embedding_for_keeps_chroma.
  - intros s1 s2 recs batch recs' _ Hs2 Hrecs Hadd.
    unfold snapshot in *. simpl. rewrite lookup_insert_eq.
    rewrite Hrecs in Hs2. apply elem_of_list_to_set.
    apply elem_of_list_to_set in Hs2. by eapply Hstore.
Qed.

Lemma _process_pdfs_keeps_ids_distinct collection folder s :
  store_keeps_ids_distinct →
  distinct_ids s collection →
  distinct_ids (state_of (_process_pdfs collection folder s)) collection.
Proof.
  intros Hstore Hs.
  apply (_process_pdfs_keeps collection folder
           (λ s', distinct_ids s' collection)); try done.
  - intros uid chunk. by apply embedding_for_keeps_chroma.
  - intros s1 s2 recs batch recs' _ Hs2 Hrecs Hadd recs0. simpl.
    rewrite lookup_insert_eq. intros [= <-].
    eapply Hstore; [|exact Hadd]. by apply Hs2.
Qed.

(** What [load_pdfs] does before it calls [_process_pdfs] removes no id
    and adds none. *)
Lemma load_pdfs_start folder s :
  ∃ s0, state_of (load_pdfs folder s)
        = state_of (_process_pdfs COLLECTION_NAME folder s0)
        ∧ snapshot s0 COLLECTION_NAME = snapshot s COLLECTION_NAME
        ∧ (distinct_ids s COLLECTION_NAME → distinct_ids s0 COLLECTION_NAME)
        ∧ ∃ pre, trace_of (load_pdfs folder s)
                 = pre ++ trace_of (_process_pdfs COLLECTION_NAME folder s0)
                 ∧ Forall (λ ev, event_ids ev = []) pre.
Proof.
  rewrite load_pdfs_run. cbv zeta.
  destruct (chroma s !! COLLECTION_NAME) as [recs|] eqn:Hc.
  - exists s. split; [done|]. split; [done|]. split; [done|].
    exists []. by split.
  - eexists. split; [reflexivity|]. split; [|split].
    + unfold snapshot. simpl. by rewrite lookup_insert_eq, Hc.
    + intros _ recs. simpl. rewrite lookup_insert_eq. intros [= <-].
      constructor.
    + eexists. split; [reflexivity|]. by repeat constructor.
Qed.

Lemma avoids_subseteq (ids ids' : gset string) ev :
  ids ⊆ ids' → avoids ids' ev → avoids ids ev.
Proof.
  intros Hsub Hev. unfold avoids in *.
  eapply Forall_impl; [|exact Hev]. intros id Hid Hin. by apply Hid, Hsub.
Qed.

Lemma _process_pdfs_avoids collection folder s :
  Forall (avoids (snapshot s collection))
    (trace_of (_process_pdfs collection folder s)).
Proof.
  rewrite _process_pdfs_run.
  destruct (List.filter is_pdf (listdir folder)) as [|f files] eqn:Hfiles.
  { by repeat constructor. }
  simpl. destruct (chroma s !! collection) as [recs|] eqn:Hc; [|constructor].
  match goal with
  | |- context [for_each ?b ?l ?s] =>
      pose proof (respects_for_each (λ _, True) (avoids (snapshot s collection))
                    b l (λ x _, process_file_avoids _ _ _ x) s I) as [_ Ht];
      destruct (for_each b l s) as [[[[]|e] s2] t2]
  end; simpl in *; [|done].
  apply Forall_app. split; [done|]. by repeat constructor.
Qed.

(** C3.  A chunk whose id is in the set of ids read from the collection
    at the start of the run is skipped at once: the step returns with the
    state untouched and without any call to the cache, the embedder or
    the store.  Hence in a whole run no cache read, no embedding, no
    cache write and no batch concerns an id of that snapshot.  With a
    store whose [add] keeps the ids it holds, the same is true of every
    later run on the collection, by [_process_pdfs] or by [load_pdfs],
    whether the runs before it returned or raised: the ids are still in
    the collection when the later run starts, so they are in its
    snapshot.  And with a store whose [add] never makes an id occur
    twice, no run does: a collection whose ids are pairwise distinct
    stays so. *)
Theorem snapshot_ids_are_never_touched collection folder s :
  (∀ existing file chunk s',
      hash_id (chunk +:+ file) ∈ existing →
      process_chunk collection existing file chunk s' = (Done tt, s', []))
  ∧ Forall (avoids (snapshot s collection))
      (trace_of (_process_pdfs collection folder s))
  ∧ (store_keeps_ids →
     ∀ s', rtc (next_run collection) s s' →
       snapshot s collection ⊆ snapshot s' collection
       ∧ (∀ folder', Forall (avoids (snapshot s collection))
                       (trace_of (_process_pdfs collection folder' s')))
       ∧ (collection = COLLECTION_NAME →
          ∀ folder', Forall (avoids (snapshot s collection))
                       (trace_of (load_pdfs folder' s'))))
  ∧ (store_keeps_ids_distinct →
     distinct_ids s collection →
     ∀ s', rtc (next_run collection) s s' → distinct_ids s' collection).
Proof.
  split; [|split; [|split]].
  - intros existing file chunk s' Hin. unfold process_chunk.
    by rewrite bool_decide_eq_true_2.
  - apply _process_pdfs_avoids.
  - intros Hstore s' Hruns.
    assert (snapshot s collection ⊆ snapshot s' collection) as Hsub.
    { induction Hruns as [s|s1 s2 s3 Hstep _ IH]; [done|].
      etrans; [|exact IH]. intros id Hid.
      destruct Hstep as [folder0|folder0 ->].
      - by apply _process_pdfs_keeps_ids.
      - destruct (load_pdfs_start folder0 s1) as (s0 & -> & Hs0 & _).
        apply _process_pdfs_keeps_ids; [done|]. by rewrite Hs0. }
    split; [done|]. split.
    + intros folder'. eapply Forall_impl; [|apply _process_pdfs_avoids].
      intros ev. by apply avoids_subseteq.
    + intros -> folder'.
      destruct (load_pdfs_start folder' s')
        as (s0 & _ & Hs0 & _ & pre & -> & Hpre).
      apply Forall_app. split.
      * eapply Forall_impl; [|exact Hpre]. intros ev Hev.
        unfold avoids. by rewrite Hev.
      * eapply Forall_impl; [|apply _process_pdfs_avoids].
        intros ev. apply avoids_subseteq. by rewrite Hs0.
  - intros Hstore Hs s' Hruns.
    induction Hruns as [s|s1 s2 s3 Hstep _ IH]; [done|].
    apply IH. destruct Hstep as [folder0|folder0 ->].
    + by apply _process_pdfs_keeps_ids_distinct.
    + destruct (load_pdfs_start folder0 s1) as (s0 & -> & _ & Hd & _).
      apply _process_pdfs_keeps_ids_distinct; auto.
Qed.

(** *** An index file that cannot be written *)

(** X21.  The write of the index file stands inside the [try] block,
    after the assignment to [file_hashes].  When the file cannot be opened
    for writing, a file whose chunks have all been handed to the store is
    reported as failed: the index in memory records its digest, the index
    file does not, and the round of the file loop returns.  A later run
    that loads the index left on disk extracts the file again. *)
Theorem failed_index_write_leaves_memory_ahead
    collection existing folder file b m e text chunks s s1 t1 :
  read_bytes folder file = Some b →
  file_hashes s = JDict m →
  equals_str (m !! file) (sha1_hexdigest b) = false →
  result_of (extract_text folder file s) = Done text →
  String.eqb (Text.strip text) EmptyString = false →
  split_text (clean_text text) = Done chunks →
  add_chunks collection existing file chunks s = (Done tt, s1, t1) →
  open_index_error = Some e →
  process_file collection existing folder file s
    = (Done tt,
       set_file_hashes (JDict (<[file := JStr (sha1_hexdigest b)]> m)) s1,
       HashFile file :: ExtractText file :: t1 ++ [FileError file e])
  ∧ hash_index_file s1 = hash_index_file s
  ∧ Forall chunk_event t1
  ∧ (synced s →
     index_entry (index_of (hash_index_file s1)) file = m !! file
     ∧ ∀ existing' later,
         file_hashes later = index_of (hash_index_file s1) →
         ∃ rest, trace_of (process_file collection existing' folder file later)
                 = HashFile file :: ExtractText file :: rest).
Proof.
  intros Hb Hm Hne Hx Htext Hsplit Hadd Hopen.
  destruct (add_chunks_index collection existing file chunks s)
    as (Hi & Hf & Hev).
  rewrite Hadd in Hi, Hf, Hev. unfold state_of, trace_of in Hi, Hf, Hev.
  simpl in Hi, Hf, Hev.
  assert (extract_text folder file s = (Done text, s, [ExtractText file]))
    as Hextract.
  { pose proof (extract_text_state folder file s) as Hxs.
    pose proof (extract_text_trace folder file s) as Hxt.
    destruct (extract_text folder file s) as [[r s0] t0].
    unfold result_of, state_of, trace_of in *. simpl in *. by subst. }
  split; [|split; [done|split; [done|]]].
  - rewrite process_file_run, Hb, Hm, Hne. cbv zeta.
    assert (file_body collection existing folder file (sha1_hexdigest b) s
            = (Raised e,
               set_file_hashes
                 (JDict (<[file := JStr (sha1_hexdigest b)]> m)) s1,
               ExtractText file :: t1)) as ->; [|done].
    unfold file_body, bind. rewrite Hextract, Htext.
    unfold split_text_semantically. rewrite Hsplit.
    unfold lift, ret. rewrite Hadd.
    unfold commit_file, file_hashes_setitem, save_hash_index, bind, gets,
      modify, emit, raise.
    simpl. rewrite Hf, Hm, Hopen. simpl. by rewrite ?app_nil_r.
  - intros Hsync. unfold synced in Hsync.
    split; [by rewrite Hi, Hsync, Hm|].
    intros existing' later Hlater.
    rewrite process_file_run, Hb, Hlater, Hi, Hsync, Hm, Hne. cbv zeta.
    destruct (file_body_starts_with_extraction collection existing' folder
                file (sha1_hexdigest b) later) as [rest' Hrest].
    destruct (file_body _ _ _ _ _ later) as [[[[]|e'] s2] t2];
      unfold result_of, trace_of in *; simpl in *; subst; by eexists.
Qed.
End Properties.

(** ** The loader at work in the small world *)

Section Runs.
Import Scenario Cases.

Example is_pdf_ignores_case :
  is_pdf "Law.PDF" = true ∧ is_pdf "a.pdf" = true
  ∧ is_pdf "scan.pdf.bak" = false ∧ is_pdf "notes.txt" = false.
Proof. by repeat split. Qed.

Example clean_text_collapses_white_space :
  clean_text (" a" +:+ String "010"%char (String "160"%char "b  c ")) = "a b c".
Proof. reflexivity. Qed.

Example first_load_adds_both_chunks :
  rec_text <$> submitted (trace_of (load_pdfs two_chunks fresh)) = ["x"; "y"]
  ∧ total_added loaded = 2
  ∧ rec_id <$> default [] (chroma loaded !! "laws") = ["xa.pdf"; "ya.pdf"].
Proof. vm_compute. by repeat split. Qed.

(** C1.  A PDF whose text splits into two equal chunks gives one batch
    that repeats an id; the store raises on it, [_add_batch] swallows the
    error, and the digest of the file is written to the index all the same.
    After the run the collection is empty, the index records the file, and
    the run reports two added chunks. *)
Theorem digest_is_committed_after_a_failed_batch :
  let r := load_pdfs twice fresh in
  let x := mkRecord "xa.pdf" "x" (JList [JNum (inject_Z 1)]) "a.pdf" in
  result_of r = Done "laws"
  ∧ trace_of r
    = [CreateCollection "laws"; HashFile "a.pdf"; ExtractText "a.pdf";
       CacheRead "xa.pdf"; Encode "xa.pdf" "x";
       CacheWrite "xa.pdf" (JList [JNum (inject_Z 1)]); CacheRead "xa.pdf";
       CollectionAdd "laws" [x; x] false;
       SaveHashIndex (JDict {[ "a.pdf" := JStr "x x" ]});
       FileDone "a.pdf" 2; TotalAdded 2]
  ∧ chroma (state_of r) !! "laws" = Some []
  ∧ hash_index_file (state_of r)
    = Some (Json (JDict {[ "a.pdf" := JStr "x x" ]})).
Proof. vm_compute. by repeat split. Qed.

(** C2.  After a first [load_pdfs] has put the two chunks of [a.pdf] into
    the collection and its digest into the index, [reload_pdfs] on the same
    folder deletes the collection, creates it anew, skips the file on its
    digest and returns: the rebuilt collection is empty. *)
Theorem reload_skips_files_recorded_in_the_index :
  let r := reload_pdfs two_chunks loaded in
  rec_id <$> default [] (chroma loaded !! "laws") = ["xa.pdf"; "ya.pdf"]
  ∧ result_of r = Done "laws"
  ∧ trace_of r
    = [DeleteCollection "laws"; CreateCollection "laws"; HashFile "a.pdf";
       Skipped "a.pdf"; TotalAdded 0]
  ∧ chroma (state_of r) !! "laws" = Some [].
Proof. vm_compute. by repeat split. Qed.

Lemma chroma_store_keeps_ids : store_keeps_ids.
Proof.
  intros recs batch recs'. simpl. destruct (bool_decide _); [|done].
  intros [= <-] i Hi. rewrite fmap_app. apply elem_of_app. by left.
Defined.

Lemma chroma_store_keeps_ids_distinct : store_keeps_ids_distinct.
Proof.
  intros recs batch recs' Hrecs. simpl.
  destruct (bool_decide _) eqn:Hb; [|done].
  intros [= <-]. apply bool_decide_eq_true in Hb.
  set (f := λ r, negb (bool_decide (rec_id r ∈ (rec_id <$> recs)))).
  assert (∀ l x, x ∈ (rec_id <$> List.filter f l) →
                 (x ∉ (rec_id <$> recs)) ∧ x ∈ (rec_id <$> l)) as Hin.
  { clear. induction l as [|r l IH]; simpl; intros x Hx;
      [by apply elem_of_nil in Hx|].
    unfold f at 1 in Hx.
    destruct (bool_decide (rec_id r ∈ (rec_id <$> recs))) eqn:Hr;
      simpl in Hx.
    - destruct (IH x Hx). split; [done|]. by right.
    - apply elem_of_cons in Hx as [->|Hx].
      + apply bool_decide_eq_false in Hr. split; [done|by left].
      + destruct (IH x Hx). split; [done|by right]. }
  rewrite fmap_app. apply list.NoDup_app. split; [done|]. split.
  - intros id Hid Hx. by destruct (Hin batch id Hx).
  - clear Hrecs. induction batch as [|r batch IH]; [constructor|].
    rewrite fmap_cons in Hb. apply list.NoDup_cons in Hb as [Hr Hb].
    simpl. destruct (f r); [|by apply IH].
    rewrite fmap_cons. apply list.NoDup_cons. split; [|by apply IH].
    intros Hx. by apply Hr, (Hin batch).
Qed.

Lemma snapshot_ids_are_never_touched_witness :
  process_chunk "laws" {[ "xa.pdf" ]} "a.pdf" "x" ready = (Done tt, ready, [])
  ∧ Forall (avoids (snapshot (set_hash_index_file None loaded) "laws"))
      (trace_of (_process_pdfs "laws" two_chunks
                   (set_hash_index_file None loaded)))
  ∧ snapshot loaded "laws"
    ⊆ snapshot (state_of (load_pdfs (one_file "a.pdf" "x z") loaded)) "laws"
  ∧ Forall (avoids (snapshot loaded "laws"))
      (trace_of (load_pdfs (one_file "a.pdf" "x w")
                   (state_of (load_pdfs (one_file "a.pdf" "x z") loaded))))
  ∧ distinct_ids (state_of (load_pdfs (one_file "a.pdf" "x z") loaded)) "laws".
Proof.
  destruct (snapshot_ids_are_never_touched "laws" two_chunks
              (set_hash_index_file None loaded)) as (Hskip & Hrun & _).
  destruct (snapshot_ids_are_never_touched "laws" two_chunks loaded)
    as (_ & _ & Hlater & Hdistinct).
  assert (rtc (next_run "laws") loaded
            (state_of (load_pdfs (one_file "a.pdf" "x z") loaded))) as Hruns.
  { apply rtc_once. by apply run_of_load_pdfs. }
  destruct (Hlater chroma_store_keeps_ids _ Hruns) as (Hsub & _ & Hload).
  split; [|split; [exact Hrun|split; [exact Hsub|split]]].
  - apply Hskip. apply elem_of_singleton. reflexivity.
  - by apply Hload.
  - apply (Hdistinct chroma_store_keeps_ids_distinct); [|exact Hruns].
    intros recs Hrecs. vm_compute in Hrecs. injection Hrecs as <-.
    apply (bool_decide_unpack _). vm_compute. exact I.
Defined.

Lemma second_load_adds_nothing_witness :
  ∃ s2,
    load_pdfs two_chunks loaded
      = (Done COLLECTION_NAME, s2,
         all_skipped (List.filter is_pdf (listdir two_chunks)))
    ∧ submitted (all_skipped (List.filter is_pdf (listdir two_chunks))) = []
    ∧ persisted s2 = persisted loaded.
Proof.
  apply (second_load_adds_nothing two_chunks fresh loaded
           (trace_of (load_pdfs two_chunks fresh))).
  - vm_compute. reflexivity.
  - vm_compute. repeat constructor.
Defined.

Lemma failed_file_is_isolated_witness :
  let loop := add_chunks "laws" ∅ "a.pdf" ["x"; "boom"; "y"] ready in
  let t1 := [ExtractText "a.pdf"] ++ [] ++ trace_of loop in
  result_of loop = Raised (Exception "encode failed")
  ∧ process_file "laws" ∅ two_files "a.pdf" ready
    = (Done tt, state_of loop,
       HashFile "a.pdf" :: t1
         ++ [FileError "a.pdf" (Exception "encode failed")])
  ∧ hash_index_file (state_of loop) = hash_index_file ready
  ∧ file_hashes (state_of loop) = file_hashes ready
  ∧ Forall not_a_commit t1
  ∧ for_each (process_file "laws" ∅ two_files) ["a.pdf"; "b.pdf"] ready
    = (result_of (for_each (process_file "laws" ∅ two_files) ["b.pdf"]
                    (state_of loop)),
       state_of (for_each (process_file "laws" ∅ two_files) ["b.pdf"]
                   (state_of loop)),
       (HashFile "a.pdf" :: t1
          ++ [FileError "a.pdf" (Exception "encode failed")])
       ++ trace_of (for_each (process_file "laws" ∅ two_files) ["b.pdf"]
                      (state_of loop)))
  ∧ ∃ rest, trace_of (process_file "laws" ∅ two_files "a.pdf"
                        (set_file_hashes (index_of (hash_index_file (state_of loop)))
                           (state_of loop)))
            = HashFile "a.pdf" :: ExtractText "a.pdf" :: rest.
Proof.
  destruct (failed_file_is_isolated "laws" ∅ two_files "a.pdf" ["b.pdf"] ready
              (String.list_byte_of_string "x boom y") ∅
              (Exception "encode failed")
              (state_of (add_chunks "laws" ∅ "a.pdf" ["x"; "boom"; "y"] ready))
              ([ExtractText "a.pdf"] ++ []
               ++ trace_of (add_chunks "laws" ∅ "a.pdf" ["x"; "boom"; "y"]
                              ready)))
    as (_ & Hround & Hdisk & Hmem & Hquiet & Hloop & Hretry).
  - reflexivity.
  - reflexivity.
  - reflexivity.
  - apply (fails_in_chunk_loop "laws" ∅ two_files "a.pdf" ready
             (Exception "encode failed") "x boom y" ready
             [ExtractText "a.pdf"] ["x"; "boom"; "y"] ready []).
    + vm_compute. reflexivity.
    + reflexivity.
    + reflexivity.
    + vm_compute. reflexivity.
  - split; [vm_compute; reflexivity|].
    repeat (split; [assumption|]).
    apply Hretry; reflexivity.
Defined.

Lemma buffer_is_flushed_at_16_witness :
  let r := add_chunks "laws" ∅ "a.pdf" seventeen_chunks ready in
  flushed_and_drained (batches (trace_of r)) (to_add (state_of r))
  ∧ rec_text <$> submitted (trace_of r) = seventeen_chunks
  ∧ length <$> batches (trace_of r) = [16; 1]
  ∧ chroma (state_of r)
    = <["laws" := store_after [] (batches (trace_of r))]> (chroma ready)
  ∧ rec_text <$> store_after [] (batches (trace_of r))
    = take 16 seventeen_chunks.
Proof.
  destruct (buffer_is_flushed_at_16_and_failed_batches_dropped
              "laws" ∅ "a.pdf" seventeen_chunks ready
              (state_of (add_chunks "laws" ∅ "a.pdf" seventeen_chunks ready))
              (trace_of (add_chunks "laws" ∅ "a.pdf" seventeen_chunks ready)))
    as (Hshape & Htexts & Hstore & _).
  - vm_compute. reflexivity.
  - split; [exact Hshape|]. split; [exact Htexts|].
    split; [vm_compute; reflexivity|].
    split; [apply Hstore; reflexivity|].
    vm_compute. reflexivity.
Defined.

(** C6, as stated, fails for the drain.  After the chunk loop of a file
    with one chunk, the drain has handed the record to the store, which
    accepted it, and the record is still in the buffer. *)
Lemma the_drain_leaves_its_batch_in_the_buffer :
  trace_of (add_chunks "laws" ∅ "a.pdf" ["x"] ready)
  = [CacheRead "xa.pdf"; Encode "xa.pdf" "x";
     CacheWrite "xa.pdf" (JList [JNum (inject_Z 1)]);
     CollectionAdd "laws"
       [mkRecord "xa.pdf" "x" (JList [JNum (inject_Z 1)]) "a.pdf"] true]
  ∧ chroma (state_of (add_chunks "laws" ∅ "a.pdf" ["x"] ready)) !! "laws"
    = Some [mkRecord "xa.pdf" "x" (JList [JNum (inject_Z 1)]) "a.pdf"]
  ∧ to_add (state_of (add_chunks "laws" ∅ "a.pdf" ["x"] ready))
    = [mkRecord "xa.pdf" "x" (JList [JNum (inject_Z 1)]) "a.pdf"].
Proof. vm_compute. by repeat split. Qed.

Lemma chunk_id_is_digest_of_text_then_file_witness :
  rec_text <$> submitted (trace_of (add_chunks "laws" ∅ "a.pdf" ["x"; "y"] ready))
  = ["x"; "y"]
  ∧ rec_id <$> submitted (trace_of (add_chunks "laws" ∅ "a.pdf" ["x"; "y"] ready))
    = ["xa.pdf"; "ya.pdf"]
  ∧ rec_source <$> submitted (trace_of (add_chunks "laws" ∅ "a.pdf" ["x"; "y"] ready))
    = ["a.pdf"; "a.pdf"].
Proof.
  destruct (chunk_id_is_digest_of_text_then_file "laws" ∅ "a.pdf" ["x"; "y"]
              ready
              (state_of (add_chunks "laws" ∅ "a.pdf" ["x"; "y"] ready))
              (trace_of (add_chunks "laws" ∅ "a.pdf" ["x"; "y"] ready)))
    as (Htexts & Hids & Hsources & _).
  - vm_compute. reflexivity.
  - split; [exact Htexts|]. split; [exact Hids | exact Hsources].
Defined.

Lemma unreadable_state_is_read_as_absent_witness :
  load_hash_index fresh = (Done (JDict ∅), fresh, [])
  ∧ load_cache "xa.pdf" fresh = (Done None, fresh, [CacheRead "xa.pdf"])
  ∧ (∃ rest, trace_of (embedding_for "xa.pdf" "x" fresh)
             = CacheRead "xa.pdf" :: Encode "xa.pdf" "x" :: rest).
Proof.
  destruct (unreadable_state_is_read_as_absent "laws" ∅ two_chunks "a.pdf"
              (String.list_byte_of_string "x y") "xa.pdf" "x" fresh)
    as (Hindex & _ & Hcache & Hembed & _).
  - reflexivity.
  - left. reflexivity.
  - left. reflexivity.
  - split; [exact Hindex|]. split; [exact Hcache | exact Hembed].
Defined.

Lemma falsy_cache_entry_is_a_miss_witness :
  let s_falsy :=
    set_cache_dir (<["xa.pdf" := Json (JList [])]> (cache_dir ready)) ready in
  let s_miss := set_cache_dir (delete "xa.pdf" (cache_dir ready)) ready in
  result_of (process_chunk "laws" ∅ "a.pdf" "x" s_falsy)
    = result_of (process_chunk "laws" ∅ "a.pdf" "x" s_miss)
  ∧ trace_of (process_chunk "laws" ∅ "a.pdf" "x" s_falsy)
    = trace_of (process_chunk "laws" ∅ "a.pdf" "x" s_miss)
  ∧ embedding_for "xa.pdf" "x" loaded
    = (Done (JList [JNum (inject_Z 1)]), loaded, [CacheRead "xa.pdf"]).
Proof.
  destruct (falsy_cache_entry_is_a_miss "laws" ∅ "a.pdf" "x" ready (JList []))
    as (Hres & Htrace & _ & _ & _ & Hhit & _).
  - reflexivity.
  - reflexivity.
  - split; [exact Hres|]. split; [exact Htrace|].
    apply Hhit; reflexivity.
Defined.

(** C9, as stated, fails in its last clause.  A cache file that holds a
    string is a hit: the embedder is not called, and the string goes into
    the buffer as the embedding of the chunk. *)
Lemma a_cached_string_is_a_hit :
  embedding_for "xa.pdf" "x" junk_cache
  = (Done (JStr "junk"), junk_cache, [CacheRead "xa.pdf"])
  ∧ process_chunk "laws" ∅ "a.pdf" "x" junk_cache
    = (Done tt,
       set_to_add [mkRecord "xa.pdf" "x" (JStr "junk") "a.pdf"] junk_cache,
       [CacheRead "xa.pdf"]).
Proof. vm_compute. by split. Qed.

Lemma only_pdf_entries_are_considered_witness :
  _process_pdfs "laws" pdf_alone ready = _process_pdfs "laws" two_chunks ready
  ∧ index_entry (index_of (hash_index_file
                   (state_of (_process_pdfs "laws" two_chunks ready))))
      "notes.txt"
    = index_entry (index_of (hash_index_file ready)) "notes.txt"
  ∧ _process_pdfs "laws" no_pdf ready = (Done tt, ready, [NoPdfFound])
  ∧ load_pdfs no_pdf ready = (Done "laws", ready, [NoPdfFound]).
Proof.
  destruct (only_pdf_entries_are_considered "laws" two_chunks ready)
    as (_ & Hsame & Hentry & _).
  destruct (only_pdf_entries_are_considered "laws" no_pdf ready)
    as (_ & _ & _ & Hnone).
  split; [|split; [|split]].
  - apply Hsame; [reflexivity|].
    intros f Hf. simpl.
    destruct (String.eqb f "a.pdf") eqn:Ha; [reflexivity|].
    destruct (String.eqb f "notes.txt") eqn:Hn; [|reflexivity].
    apply String.eqb_eq in Hn. subst f. discriminate Hf.
  - apply Hentry. reflexivity.
  - apply Hnone. reflexivity.
  - apply Hnone; [reflexivity|]. by eexists.
Defined.

End Runs.

(** ** What the splitter is asked *)

Lemma for_each_pointwise {A} (f g : A → M unit) :
  (∀ x s, f x s = g x s) → ∀ xs s, for_each f xs s = for_each g xs s.
Proof.
  intros Hfg xs. induction xs as [|x xs IH]; intros s; [done|].
  change (for_each f (x :: xs)) with (f x >> for_each f xs).
  change (for_each g (x :: xs)) with (g x >> for_each g xs).
  rewrite !bind_run, Hfg. destruct (g x s) as [[[[]|e] s1] t1]; [|done].
  by rewrite IH.
Qed.

Section Splitters.
Context {digest : Digest} {engines : PdfEngines} {embedder : Embedder}
        {store : VectorStore} {disk : Disk}.
Variables one other : TextSplitter.
Hypothesis agree :
  ∀ t, t ≠ EmptyString → normalised t = true →
       @split_text other t = @split_text one t.

Lemma file_body_same_splitter collection existing folder file h s :
  file_body (splitter := other) collection existing folder file h s
  = file_body (splitter := one) collection existing folder file h s.
Proof.
  unfold file_body. rewrite !bind_run.
  destruct (extract_text folder file s) as [[[text|e] s1] t1]; [|done].
  destruct (String.eqb (Text.strip text) EmptyString) eqn:E; [done|].
  unfold split_text_semantically. rewrite agree; [done| |].
  - intros H. apply (proj1 (clean_text_blank_iff text)) in H. by rewrite H in E.
  - apply clean_text_normalised.
Qed.

Lemma process_file_same_splitter collection existing folder file s :
  process_file (splitter := other) collection existing folder file s
  = process_file (splitter := one) collection existing folder file s.
Proof.
  rewrite (process_file_run (splitter := other)),
    (process_file_run (splitter := one)). cbv zeta.
  destruct (read_bytes folder file) as [b|]; [|done].
  destruct (file_hashes s) as [| | | | |m]; try done.
  destruct (equals_str (m !! file) (sha1_hexdigest b)); [done|].
  by rewrite file_body_same_splitter.
Qed.

Lemma _process_pdfs_same_splitter collection folder s :
  _process_pdfs (splitter := other) collection folder s
  = _process_pdfs (splitter := one) collection folder s.
Proof.
  rewrite (_process_pdfs_run (splitter := other)),
    (_process_pdfs_run (splitter := one)). cbv zeta.
  destruct (List.filter is_pdf (listdir folder)) as [|f files]; [done|].
  destruct (chroma s !! collection); [|done].
  by rewrite (for_each_pointwise _ _
                (process_file_same_splitter collection
                   (snapshot s collection) folder)).
Qed.

End Splitters.

(** X19.  The splitter is only ever handed the result of [clean_text] on a
    text that is not blank: a text that is not empty, without line breaks,
    tabs or runs of blanks.  So two splitters that agree on the texts of
    that shape give the same runs of [_process_pdfs], [load_pdfs] and
    [reload_pdfs], whatever they do with other texts. *)
Theorem splitter_only_sees_cleaned_text
    {digest : Digest} {engines : PdfEngines} {embedder : Embedder}
    {store : VectorStore} {disk : Disk} (one other : TextSplitter) folder s :
  (∀ t, t ≠ EmptyString → normalised t = true →
        @split_text other t = @split_text one t) →
  (∀ collection,
     _process_pdfs (splitter := other) collection folder s
     = _process_pdfs (splitter := one) collection folder s)
  ∧ load_pdfs (splitter := other) folder s
    = load_pdfs (splitter := one) folder s
  ∧ reload_pdfs (splitter := other) folder s
    = reload_pdfs (splitter := one) folder s.
Proof.
  intros agree.
  assert (∀ s', load_pdfs (splitter := other) folder s'
                = load_pdfs (splitter := one) folder s') as Hload.
  { intros s'. rewrite (load_pdfs_run (splitter := other)),
      (load_pdfs_run (splitter := one)). cbv zeta.
    by rewrite (_process_pdfs_same_splitter one other agree). }
  split; [|split].
  - intros collection. by apply _process_pdfs_same_splitter.
  - apply Hload.
  - rewrite (reload_pdfs_run (splitter := other)),
      (reload_pdfs_run (splitter := one)). cbv zeta. by rewrite Hload.
Qed.

(** ** More runs in the small world *)

Section MoreRuns.
Import Scenario Cases.

Example clean_text_examples :
  clean_text (String "009"%char "Art. 1 " +:+ String "010"%char " scope ")
  = "Art. 1 scope"
  ∧ normalised "Art. 1 scope" = true
  ∧ normalised "Art.  1" = false
  ∧ non_space " a b " = "ab".
Proof. by repeat split. Qed.

Example unwritable_cache_fails_the_file :
  process_file (disk := read_only_cache) "laws" ∅ two_chunks "a.pdf" ready
  = (Done tt, ready,
     [HashFile "a.pdf"; ExtractText "a.pdf"; CacheRead "xa.pdf";
      Encode "xa.pdf" "x";
      FileError "a.pdf" (Exception "PermissionError")]).
Proof. reflexivity. Qed.

Lemma cached_embedding_is_reused_witness :
  embedding_for "xa.pdf" "some other text"
    (state_of (embedding_for "xa.pdf" "x" ready))
  = (Done (JList [JNum (inject_Z 1)]),
     state_of (embedding_for "xa.pdf" "x" ready), [CacheRead "xa.pdf"]).
Proof.
  destruct (cached_embedding_is_reused "xa.pdf" "x" ready
              (JList [JNum (inject_Z 1)])
              (state_of (embedding_for "xa.pdf" "x" ready))
              (trace_of (embedding_for "xa.pdf" "x" ready)))
    as [Hhit _].
  - vm_compute. reflexivity.
  - simpl in Hhit. apply Hhit.
Defined.

Lemma valid_cache_entries_are_kept_witness :
  cache_dir (state_of (load_pdfs seventeen loaded)) !! "xa.pdf"
  = Some (Json (JList [JNum (inject_Z 1)]))
  ∧ cache_dir (state_of (reload_pdfs seventeen loaded)) !! "xa.pdf"
    = Some (Json (JList [JNum (inject_Z 1)])).
Proof.
  destruct (valid_cache_entries_are_kept seventeen loaded "xa.pdf"
              (JList [JNum (inject_Z 1)])) as (_ & Hload & Hreload).
  - vm_compute. reflexivity.
  - reflexivity.
  - split; [exact Hload | exact Hreload].
Defined.

Lemma reported_total_counts_submitted_records_witness :
  ∃ t0, trace_of (_process_pdfs "laws" twice ready)
        = t0 ++ [TotalAdded (length (submitted t0))]
        ∧ total_added (state_of (_process_pdfs "laws" twice ready))
          = length (submitted t0).
Proof.
  apply (reported_total_counts_submitted_records "laws" twice ready).
  - vm_compute. reflexivity.
  - vm_compute. discriminate.
Defined.

Lemma other_collections_are_left_alone_witness :
  chroma (state_of (load_pdfs two_chunks two_collections)) !! "notes"
  = chroma two_collections !! "notes"
  ∧ chroma (state_of (reload_pdfs two_chunks two_collections)) !! "notes"
    = chroma two_collections !! "notes".
Proof.
  destruct (other_collections_are_left_alone two_chunks two_collections "notes")
    as (Hload & Hreload & _).
  - discriminate.
  - split; [exact Hload | exact Hreload].
Defined.

Lemma chunk_and_file_name_are_not_separated_witness :
  process_chunk "laws" {[ "abc.pdf" ]} ("b" +:+ "c.pdf") "a" ready
  = (Done tt, ready, []).
Proof.
  destruct (chunk_and_file_name_are_not_separated "laws" {[ "abc.pdf" ]}
              "a" "b" "c.pdf" ready) as [_ Hskip].
  - apply elem_of_singleton. reflexivity.
  - exact Hskip.
Defined.

Lemma non_dict_index_aborts_the_run_witness :
  _process_pdfs "laws" two_chunks list_index
  = (Raised (Exception "AttributeError"),
     set_total_added 0 (set_file_hashes (JList []) list_index),
     [HashFile "a.pdf"])
  ∧ persisted (state_of (_process_pdfs "laws" two_chunks list_index))
    = persisted list_index.
Proof.
  apply (non_dict_index_aborts_the_run "laws" two_chunks list_index (JList [])
           "a.pdf" [] (String.list_byte_of_string "x y") []).
  - reflexivity.
  - intros m. discriminate.
  - reflexivity.
  - reflexivity.
  - reflexivity.
Defined.

Lemma unreadable_pdf_aborts_the_run_witness :
  for_each (process_file "laws" ∅ broken) (["a.pdf"] ++ "b.pdf" :: ["c.pdf"]) ready
  = (Raised (Exception "OSError"),
     state_of (for_each (process_file "laws" ∅ broken) ["a.pdf"] ready),
     trace_of (for_each (process_file "laws" ∅ broken) ["a.pdf"] ready)
     ++ [HashFile "b.pdf"]).
Proof.
  apply (unreadable_pdf_aborts_the_run "laws" ∅ broken ["a.pdf"] "b.pdf"
           ["c.pdf"] ready).
  - vm_compute. reflexivity.
  - reflexivity.
Defined.

Lemma blank_file_is_never_recorded_witness :
  process_file "laws" ∅ blank "a.pdf" ready
  = (Done tt, ready,
     [HashFile "a.pdf"; ExtractText "a.pdf"; EmptyText "a.pdf"]).
Proof.
  apply (blank_file_is_never_recorded "laws" ∅ blank "a.pdf"
           (String.list_byte_of_string "   ") ∅ "   " ready).
  - reflexivity.
  - reflexivity.
  - reflexivity.
  - vm_compute. reflexivity.
  - reflexivity.
Defined.

Lemma processing_a_file_keeps_the_other_entries_witness :
  index_entry (file_hashes
                 (state_of (process_file "laws" ∅ two_files "b.pdf" loaded)))
    "a.pdf"
  = Some (JStr "x y")
  ∧ index_entry (index_of (hash_index_file
                   (state_of (process_file "laws" ∅ two_files "b.pdf" loaded))))
      "a.pdf"
    = Some (JStr "x y").
Proof.
  apply (processing_a_file_keeps_the_other_entries "laws" ∅ two_files
           "b.pdf" "a.pdf" (Some (JStr "x y")) loaded).
  - discriminate.
  - vm_compute. reflexivity.
  - vm_compute. reflexivity.
Defined.

Lemma ingestion_never_removes_an_id_witness :
  "xa.pdf" ∈ snapshot (state_of (load_pdfs seventeen loaded)) "laws".
Proof.
  destruct (ingestion_never_removes_an_id seventeen loaded "xa.pdf"
              chroma_store_keeps_ids) as [_ Hload].
  apply Hload. apply (bool_decide_unpack _). vm_compute. exact I.
Defined.

Lemma changed_file_is_processed_again_witness :
  process_file "laws" ∅ (one_file "a.pdf" "x z") "a.pdf" loaded
  = (Done tt,
     state_of (file_body "laws" ∅ (one_file "a.pdf" "x z") "a.pdf" "x z" loaded),
     HashFile "a.pdf"
     :: trace_of (file_body "laws" ∅ (one_file "a.pdf" "x z") "a.pdf" "x z"
                    loaded))
  ∧ index_entry (index_of (hash_index_file loaded)) "a.pdf"
    = Some (JStr "x y")
  ∧ index_entry
      (file_hashes
         (state_of (file_body "laws" ∅ (one_file "a.pdf" "x z") "a.pdf" "x z"
                      loaded))) "a.pdf"
    = Some (JStr "x z").
Proof.
  destruct (changed_file_is_processed_again "laws" ∅ (one_file "a.pdf" "x z")
              "a.pdf" (String.list_byte_of_string "x z")
              {[ "a.pdf" := JStr "x y" ]} "x y" loaded
              (state_of (file_body "laws" ∅ (one_file "a.pdf" "x z")
                           "a.pdf" "x z" loaded))
              (trace_of (file_body "laws" ∅ (one_file "a.pdf" "x z")
                           "a.pdf" "x z" loaded)))
    as (Hround & _ & Hentry & _).
  - reflexivity.
  - vm_compute. reflexivity.
  - reflexivity.
  - discriminate.
  - vm_compute. reflexivity.
  - vm_compute. repeat constructor.
  - split; [exact Hround|]. split; [vm_compute; reflexivity | exact Hentry].
Defined.

Lemma index_on_disk_follows_memory_witness :
  synced (state_of (_process_pdfs "laws" two_files ready)).
Proof.
  apply (index_on_disk_follows_memory "laws" two_files ready).
  - reflexivity.
  - vm_compute. discriminate.
Defined.

Lemma reload_after_load_leaves_an_empty_collection_witness :
  result_of (reload_pdfs two_chunks loaded) = Done COLLECTION_NAME
  ∧ trace_of (reload_pdfs two_chunks loaded)
    = DeleteCollection COLLECTION_NAME :: CreateCollection COLLECTION_NAME
      :: all_skipped (List.filter is_pdf (listdir two_chunks))
  ∧ chroma (state_of (reload_pdfs two_chunks loaded)) !! COLLECTION_NAME
    = Some [].
Proof.
  apply (reload_after_load_leaves_an_empty_collection two_chunks fresh loaded
           (trace_of (load_pdfs two_chunks fresh))).
  - vm_compute. reflexivity.
  - vm_compute. repeat constructor.
Defined.

Lemma splitter_only_sees_cleaned_text_witness :
  load_pdfs (splitter := strict_splitter) seventeen fresh
  = load_pdfs (splitter := word_splitter) seventeen fresh
  ∧ split_text (TextSplitter := strict_splitter) "x  y"
    ≠ split_text (TextSplitter := word_splitter) "x  y".
Proof.
  destruct (splitter_only_sees_cleaned_text word_splitter strict_splitter
              seventeen fresh) as (_ & Hload & _).
  - intros t Hne Hn. simpl. rewrite Hn. by destruct t.
  - split; [exact Hload | discriminate].
Defined.

Lemma failing_first_engine_fails_the_file_witness :
  process_file (engines := failing_engine) "laws" ∅ two_chunks "a.pdf" ready
  = (Done tt, ready,
     [HashFile "a.pdf"; ExtractText "a.pdf";
      FileError "a.pdf" (Exception "partition failed")]).
Proof.
  destruct (failing_first_engine_fails_the_file (engines := failing_engine)
              "laws" ∅ two_chunks "a.pdf"
              (String.list_byte_of_string "x y") ∅
              (Exception "partition failed") ready) as [_ Hfile].
  - reflexivity.
  - reflexivity.
  - reflexivity.
  - reflexivity.
  - reflexivity.
  - exact Hfile.
Defined.

Lemma failed_index_write_leaves_memory_ahead_witness :
  let loop :=
    add_chunks (disk := read_only_index) "laws" ∅ "a.pdf" ["x"; "y"] ready in
  process_file (disk := read_only_index) "laws" ∅ two_chunks "a.pdf" ready
  = (Done tt,
     set_file_hashes (JDict {[ "a.pdf" := JStr "x y" ]}) (state_of loop),
     HashFile "a.pdf" :: ExtractText "a.pdf"
     :: trace_of loop ++ [FileError "a.pdf" (Exception "PermissionError")])
  ∧ hash_index_file (state_of loop) = None
  ∧ rec_id <$> submitted (trace_of loop) = ["xa.pdf"; "ya.pdf"].
Proof.
  destruct (failed_index_write_leaves_memory_ahead (disk := read_only_index)
              "laws" ∅ two_chunks "a.pdf" (String.list_byte_of_string "x y")
              ∅ (Exception "PermissionError") "x y" ["x"; "y"] ready
              (state_of (add_chunks (disk := read_only_index) "laws" ∅
                           "a.pdf" ["x"; "y"] ready))
              (trace_of (add_chunks (disk := read_only_index) "laws" ∅
                           "a.pdf" ["x"; "y"] ready)))
    as (Hround & Hdisk & _).
  - reflexivity.
  - reflexivity.
  - reflexivity.
  - reflexivity.
  - reflexivity.
  - reflexivity.
  - vm_compute. reflexivity.
  - reflexivity.
  - split; [exact Hround|]. split; [exact Hdisk|]. vm_compute. reflexivity.
Defined.

End MoreRuns.
